(** * eleanor: light-curve extraction of [TargetData] (src/eleanor/targetdata.py)

    A shallow embedding of the class [TargetData]: the cutout around the
    source ([get_tpf_from_postcard], module [Cutout]), the aperture catalog
    ([create_apertures]), aperture photometry and the choice of the best
    aperture ([get_lightcurve]), user apertures ([custom_aperture]) and the
    systematics corrections ([jitter_corr], [rotation_corr], [system_corr]).

    - numbers are IEEE binary64 values, as numpy's float64 ([PrimFloat]);
    - numpy arrays are lists (one axis) or lists of rows (two axes), in C
      order; [np.sum], [np.mean] and [np.std] add in the order of numpy's
      pairwise summation;
    - Python exceptions are the values of [Py.result]; a method of the object
      is a function from the object to the object after the call and the
      outcome of the call, so that what was assigned before an exception
      stays assigned;
    - photutils' rasteriser, scipy's [minimize], lightkurve's
      [SFFCorrector.correct] and [use_pointing_model] of the module [ffi]
      are not part of the sources: they are parameters of the
      development. *)

From Stdlib Require Import ZArith Lia Floats Ascii String.
From stdpp Require Import base option list.

(** ** Python outcomes *)
Module Py.

Inductive exn : Set :=
  | AttributeError
  | IndexError
  | NameError
  | TypeError
  | ValueError.

Inductive result (A : Type) : Type :=
  | Ok (a : A)
  | Raise (e : exn).
Arguments Ok {A} a.
Arguments Raise {A} e.

Definition bindR {A B} (m : result A) (k : A -> result B) : result B :=
  match m with
  | Ok a => k a
  | Raise e => Raise e
  end.

(** [f] applied to every element in order; the first exception wins. *)
Fixpoint mapR {A B} (f : A -> result B) (l : list A) : result (list B) :=
  match l with
  | [] => Ok []
  | x :: l' =>
      bindR (f x) (fun y => bindR (mapR f l') (fun ys => Ok (y :: ys)))
  end.

(** [seq[i]] on a sequence: out of range is an [IndexError]
    (indices are never negative in this program). *)
Definition index {A} (l : list A) (i : nat) : result A :=
  match l !! i with
  | Some x => Ok x
  | None => Raise IndexError
  end.

(** The state of an attribute of an object: never assigned (reading it is an
    [AttributeError]), assigned [None], or assigned a value. *)
Inductive attr (A : Type) : Type :=
  | Unset
  | PyNone
  | Val (a : A).
Arguments Unset {A}.
Arguments PyNone {A}.
Arguments Val {A} a.

(** Reading an attribute that is then used as an array: [None] supports none
    of [len], indexing and arithmetic, which is a [TypeError]. *)
Definition read {A} (a : attr A) : result A :=
  match a with
  | Unset => Raise AttributeError
  | PyNone => Raise TypeError
  | Val v => Ok v
  end.

(** [str.lower] on ASCII letters. *)
Definition lower_ascii (c : ascii) : ascii :=
  let n := nat_of_ascii c in
  if (65 <=? n)%nat && (n <=? 90)%nat then ascii_of_nat (n + 32) else c.

Fixpoint lower (s : string) : string :=
  match s with
  | EmptyString => EmptyString
  | String c s' => String (lower_ascii c) (lower s')
  end.

End Py.
Export Py.

Notation "'let*' x ':=' m 'in' k" := (bindR m (fun x => k))
  (at level 10, x pattern, m at level 100, k at level 200, only parsing).

(** ** numpy on binary64 *)
Module Np.
Open Scope float_scope.

(** An array with two axes, as the list of its rows. *)
Abbreviation image := (list (list float)).

(** [np.shape(a)] for an array with two axes. *)
Definition np_shape (a : image) : nat * nat :=
  (length a, match a with r :: _ => length r | [] => O end).

Definition of_nat (n : nat) : float := of_uint63 (Uint63.of_Z (Z.of_nat n)).

(** numpy's broadcasting of a binary operation along one axis: equal lengths
    go element by element, an axis of length one is stretched, anything else
    is a [ValueError]. *)
Definition broadcast {A B C} (op : A -> B -> result C)
    (a : list A) (b : list B) : result (list C) :=
  if (length a =? length b)%nat then mapR (fun p => op p.1 p.2) (zip a b)
  else match a, b with
       | [x], _ => mapR (op x) b
       | _, [y] => mapR (fun x => op x y) a
       | _, _ => Raise ValueError
       end.

(** Element-wise operations on arrays with one axis. *)
Definition np_op1 (op : float -> float -> float) (a b : list float)
    : result (list float) :=
  broadcast (fun x y => Ok (op x y)) a b.

(** [a * b] on arrays with two axes. *)
Definition np_mul2 (a b : image) : result image :=
  broadcast (np_op1 mul) a b.

(** [a ** 2] on an array with two axes (numpy squares each element). *)
Definition np_square2 (a : image) : image :=
  map (map (fun x => x * x)) a.

(** The unrolled loop of numpy's [DOUBLE_pairwise_sum]
    ([for (i = 8; i < n - (n % 8); i += 8) r[k] += a[i + k]]): [blocks]
    times, the next eight values are added to the eight accumulators [r].
    What is left of the array comes back with the accumulators. *)
Fixpoint unrolled (blocks : nat) (r a : list float)
    : list float * list float :=
  match blocks with
  | O => (r, a)
  | S blocks' => unrolled blocks' (zip_with add r (take 8 a)) (drop 8 a)
  end.

(** The branch [n <= PW_BLOCKSIZE] of [DOUBLE_pairwise_sum], for
    [8 <= n]: the accumulators start as the first eight values, take the
    whole blocks of eight, are added up as
    [((r0 + r1) + (r2 + r3)) + ((r4 + r5) + (r6 + r7))], and the values
    after the last whole block are added one by one. *)
Definition pairwise_block (a : list float) : float :=
  let n := length a in
  let '(r, rest) := unrolled (n / 8 - 1) (take 8 a) (drop 8 a) in
  let res := ((nth 0 r 0 + nth 1 r 0) + (nth 2 r 0 + nth 3 r 0)) +
             ((nth 4 r 0 + nth 5 r 0) + (nth 6 r 0 + nth 7 r 0)) in
  fold_left add rest res.

(** numpy's [DOUBLE_pairwise_sum] on a contiguous array: fewer than 8
    values are added from left to right; up to [PW_BLOCKSIZE = 128] values
    go through the eight accumulators; a longer array is cut at [n / 2]
    rounded down to a multiple of 8 and the sums of the two parts are
    added. Both parts are shorter than the array, so that a [fuel] of its
    length is never used up. *)
Fixpoint pairwise_sum (fuel : nat) (a : list float) : float :=
  let n := length a in
  if (n <? 8)%nat then fold_left add a 0
  else if (n <=? 128)%nat then pairwise_block a
  else match fuel with
       | O => 0
       | S fuel' =>
           let n2 := (n / 2)%nat in
           let n2 := (n2 - n2 mod 8)%nat in
           pairwise_sum fuel' (take n2 a) + pairwise_sum fuel' (drop n2 a)
       end.

(** [np.sum] of an array with one axis ([add.reduce]): the pairwise sum of
    the array is added to the identity 0 of the reduction. *)
Definition np_sum (l : list float) : float := 0 + pairwise_sum (length l) l.

(** [np.sum] of an array with two axes, which the arithmetic of the class
    leaves in C order: the reduction runs once over the rows laid end to
    end. *)
Definition np_sum2 (a : image) : float := np_sum (concat a).

(** [np.mean]: [np.sum] over the count; 0/0 is [nan] on an empty array. *)
Definition np_mean (l : list float) : float := np_sum l / of_nat (length l).

(** [np.std] with its default [ddof=0]: the mean is [np.sum] over the
    count, the deviations from it are squared, and the result is the root
    of their [np.sum] over the count. *)
Definition np_std (l : list float) : float :=
  let arrmean := np_sum l / of_nat (length l) in
  let x := map (fun v => v - arrmean) l in
  let x := map (fun v => v * v) x in
  sqrt (np_sum x / of_nat (length l)).

(** numpy's [minimum] as [np.min] folds it: the accumulator is kept when it
    is below the next element or is [nan]. *)
Definition minimum (io1 in2 : float) : float :=
  if (io1 <=? in2) || is_nan io1 then io1 else in2.

(** [np.min] of a sequence: a [ValueError] on an empty one. *)
Definition np_min (l : list float) : result float :=
  match l with
  | [] => Raise ValueError
  | x :: l' => Ok (fold_left minimum l' x)
  end.

(** [np.where(b)[0]]: the indices at which [b] holds, in increasing order. *)
Fixpoint where_from (i : nat) (b : list bool) : list nat :=
  match b with
  | [] => []
  | true :: b' => i :: where_from (S i) b'
  | false :: b' => where_from (S i) b'
  end.

Definition np_where (b : list bool) : list nat := where_from 0 b.

(** [a[mask]] with a boolean mask of the length of [a]. *)
Fixpoint select {A} (a : list A) (mask : list bool) : list A :=
  match a, mask with
  | x :: a', true :: m' => x :: select a' m'
  | _ :: a', false :: m' => select a' m'
  | _, _ => []
  end.

(** [a[inds] = v] with an array of indices, all in range. *)
Definition assign {A} (inds : list nat) (v : A) (a : list A) : list A :=
  fold_left (fun acc j => <[j:=v]> acc) inds a.

(** The smallest integer not below a finite [x]. *)
Definition ceilZ (x : float) : Z :=
  match Prim2SF x with
  | S754_finite s m e =>
      let n := if s then Z.neg m else Z.pos m in
      if (0 <=? e)%Z then (n * 2 ^ e)%Z else (- ((- n) / 2 ^ (- e)))%Z
  | _ => 0%Z
  end.

(** [np.arange(start, stop, step)] on floats: [ceil((stop - start) / step)]
    values; the first two are [start] and [start + step], the others are
    [start + i * delta] for the difference [delta] of the first two. *)
Definition np_arange (start stop step : float) : list float :=
  let n := Z.to_nat (ceilZ ((stop - start) / step)) in
  let delta := (start + step) - start in
  map (fun i => match i with
                | O => start
                | S O => start + step
                | _ => start + of_nat i * delta
                end) (seq 0 n).

End Np.
Export Np.

(** ** The object *)
Module Obj.

(** photutils' apertures, by their constructors' arguments. *)
Inductive aperture_shape : Type :=
  | CircularAperture (pos : float * float) (r : float)
  | RectangularAperture (pos : float * float) (l w t : float).

(** What the name [custom_aperture] holds on an object: the method of the
    class until a call of it assigns the attribute of the same name, then
    [None] or a mask. *)
Inductive custom_slot : Type :=
  | CustomMethod
  | CustomNone
  | CustomMask (m : image).

(** The attributes of a [TargetData] that the modelled methods read or
    assign. [tpf] and [tpf_err] are the cutouts made by
    [get_tpf_from_postcard]; that method assigns [centroid_xs] and
    [centroid_ys], while [jitter_corr] and [rotation_corr] read [centroid_x]
    and [centroid_y], which no method of the class assigns. [stdout] is
    what was printed. *)
Record TargetData : Type := {
  tpf : list image;
  tpf_err : list image;
  centroid_x : attr (list float);
  centroid_y : attr (list float);
  all_lc : attr (list (list float));
  all_lc_err : attr (list (list float));
  all_aperture : attr unit;
  all_apertures : attr (list image);
  lc : attr (list float);
  lc_err : attr (list float);
  flux : attr (list float);
  flux_err : attr (list float);
  aperture : attr image;
  custom_aperture_attr : custom_slot;
  stdout : list string
}.

Definition set_all_lc (v : attr (list (list float))) (s : TargetData) : TargetData :=
  {| tpf := tpf s;
     tpf_err := tpf_err s;
     centroid_x := centroid_x s;
     centroid_y := centroid_y s;
     all_lc := v;
     all_lc_err := all_lc_err s;
     all_aperture := all_aperture s;
     all_apertures := all_apertures s;
     lc := lc s;
     lc_err := lc_err s;
     flux := flux s;
     flux_err := flux_err s;
     aperture := aperture s;
     custom_aperture_attr := custom_aperture_attr s;
     stdout := stdout s |}.

Definition set_all_lc_err (v : attr (list (list float))) (s : TargetData) : TargetData :=
  {| tpf := tpf s;
     tpf_err := tpf_err s;
     centroid_x := centroid_x s;
     centroid_y := centroid_y s;
     all_lc := all_lc s;
     all_lc_err := v;
     all_aperture := all_aperture s;
     all_apertures := all_apertures s;
     lc := lc s;
     lc_err := lc_err s;
     flux := flux s;
     flux_err := flux_err s;
     aperture := aperture s;
     custom_aperture_attr := custom_aperture_attr s;
     stdout := stdout s |}.

Definition set_all_aperture (v : attr unit) (s : TargetData) : TargetData :=
  {| tpf := tpf s;
     tpf_err := tpf_err s;
     centroid_x := centroid_x s;
     centroid_y := centroid_y s;
     all_lc := all_lc s;
     all_lc_err := all_lc_err s;
     all_aperture := v;
     all_apertures := all_apertures s;
     lc := lc s;
     lc_err := lc_err s;
     flux := flux s;
     flux_err := flux_err s;
     aperture := aperture s;
     custom_aperture_attr := custom_aperture_attr s;
     stdout := stdout s |}.

Definition set_all_apertures (v : attr (list image)) (s : TargetData) : TargetData :=
  {| tpf := tpf s;
     tpf_err := tpf_err s;
     centroid_x := centroid_x s;
     centroid_y := centroid_y s;
     all_lc := all_lc s;
     all_lc_err := all_lc_err s;
     all_aperture := all_aperture s;
     all_apertures := v;
     lc := lc s;
     lc_err := lc_err s;
     flux := flux s;
     flux_err := flux_err s;
     aperture := aperture s;
     custom_aperture_attr := custom_aperture_attr s;
     stdout := stdout s |}.

Definition set_lc (v : attr (list float)) (s : TargetData) : TargetData :=
  {| tpf := tpf s;
     tpf_err := tpf_err s;
     centroid_x := centroid_x s;
     centroid_y := centroid_y s;
     all_lc := all_lc s;
     all_lc_err := all_lc_err s;
     all_aperture := all_aperture s;
     all_apertures := all_apertures s;
     lc := v;
     lc_err := lc_err s;
     flux := flux s;
     flux_err := flux_err s;
     aperture := aperture s;
     custom_aperture_attr := custom_aperture_attr s;
     stdout := stdout s |}.

Definition set_lc_err (v : attr (list float)) (s : TargetData) : TargetData :=
  {| tpf := tpf s;
     tpf_err := tpf_err s;
     centroid_x := centroid_x s;
     centroid_y := centroid_y s;
     all_lc := all_lc s;
     all_lc_err := all_lc_err s;
     all_aperture := all_aperture s;
     all_apertures := all_apertures s;
     lc := lc s;
     lc_err := v;
     flux := flux s;
     flux_err := flux_err s;
     aperture := aperture s;
     custom_aperture_attr := custom_aperture_attr s;
     stdout := stdout s |}.

Definition set_flux (v : attr (list float)) (s : TargetData) : TargetData :=
  {| tpf := tpf s;
     tpf_err := tpf_err s;
     centroid_x := centroid_x s;
     centroid_y := centroid_y s;
     all_lc := all_lc s;
     all_lc_err := all_lc_err s;
     all_aperture := all_aperture s;
     all_apertures := all_apertures s;
     lc := lc s;
     lc_err := lc_err s;
     flux := v;
     flux_err := flux_err s;
     aperture := aperture s;
     custom_aperture_attr := custom_aperture_attr s;
     stdout := stdout s |}.

Definition set_flux_err (v : attr (list float)) (s : TargetData) : TargetData :=
  {| tpf := tpf s;
     tpf_err := tpf_err s;
     centroid_x := centroid_x s;
     centroid_y := centroid_y s;
     all_lc := all_lc s;
     all_lc_err := all_lc_err s;
     all_aperture := all_aperture s;
     all_apertures := all_apertures s;
     lc := lc s;
     lc_err := lc_err s;
     flux := flux s;
     flux_err := v;
     aperture := aperture s;
     custom_aperture_attr := custom_aperture_attr s;
     stdout := stdout s |}.

Definition set_aperture (v : attr image) (s : TargetData) : TargetData :=
  {| tpf := tpf s;
     tpf_err := tpf_err s;
     centroid_x := centroid_x s;
     centroid_y := centroid_y s;
     all_lc := all_lc s;
     all_lc_err := all_lc_err s;
     all_aperture := all_aperture s;
     all_apertures := all_apertures s;
     lc := lc s;
     lc_err := lc_err s;
     flux := flux s;
     flux_err := flux_err s;
     aperture := v;
     custom_aperture_attr := custom_aperture_attr s;
     stdout := stdout s |}.

Definition set_custom_aperture_attr (v : custom_slot) (s : TargetData) : TargetData :=
  {| tpf := tpf s;
     tpf_err := tpf_err s;
     centroid_x := centroid_x s;
     centroid_y := centroid_y s;
     all_lc := all_lc s;
     all_lc_err := all_lc_err s;
     all_aperture := all_aperture s;
     all_apertures := all_apertures s;
     lc := lc s;
     lc_err := lc_err s;
     flux := flux s;
     flux_err := flux_err s;
     aperture := aperture s;
     custom_aperture_attr := v;
     stdout := stdout s |}.

Definition set_stdout (v : list string) (s : TargetData) : TargetData :=
  {| tpf := tpf s;
     tpf_err := tpf_err s;
     centroid_x := centroid_x s;
     centroid_y := centroid_y s;
     all_lc := all_lc s;
     all_lc_err := all_lc_err s;
     all_aperture := all_aperture s;
     all_apertures := all_apertures s;
     lc := lc s;
     lc_err := lc_err s;
     flux := flux s;
     flux_err := flux_err s;
     aperture := aperture s;
     custom_aperture_attr := custom_aperture_attr s;
     stdout := v |}.

(** A method: the object after the call, and the call's outcome. *)
Definition M (A : Type) : Type := TargetData -> TargetData * result A.

Definition retM {A} (a : A) : M A := fun s => (s, Ok a).

Definition bindM {A B} (m : M A) (k : A -> M B) : M B :=
  fun s =>
    match m s with
    | (s', Ok a) => k a s'
    | (s', Raise e) => (s', Raise e)
    end.

(** An assignment to an attribute. *)
Definition assignM (f : TargetData -> TargetData) : M unit :=
  fun s => (f s, Ok tt).

(** An expression over the object's attributes, which may raise. *)
Definition evalM {A} (f : TargetData -> result A) : M A :=
  fun s => (s, f s).

Definition print (msg : string) : M unit :=
  assignM (fun s => set_stdout (stdout s ++ [msg]) s).

(** [for x in l: body]. *)
Fixpoint forM {A} (l : list A) (body : A -> M unit) : M unit :=
  match l with
  | [] => retM tt
  | x :: l' => bindM (body x) (fun _ => forM l' body)
  end.

End Obj.
Export Obj.

Notation "'let!' x ':=' m 'in' k" := (bindM m (fun x => k))
  (at level 10, x pattern, m at level 100, k at level 200, only parsing).
Notation "m1 ;; m2" := (bindM m1 (fun _ => m2))
  (at level 100, m2 at level 200, right associativity, only parsing).

(** ** The methods of [TargetData] *)
Section Methods.
Open Scope string_scope.
Open Scope float_scope.

(** [ap.to_mask(method=method)[0].to_image(shape=shape)] of photutils. *)
Variable to_image : aperture_shape -> string -> nat * nat -> image.

(** The five coefficients of the jitter model. *)
Definition params : Type := float * float * float * float * float.

(** [minimize(fun, x0, args=..., bounds=bnds).x] of scipy.optimize, given
    the objective with its [args] applied. *)
Variable minimize :
  (params -> result float) -> params -> list (float * float) -> params.

(** [SFFCorrector().correct(time, flux, x, y, niters, windows, polyorder)]
    of lightkurve. *)
Variable sff_correct :
  list nat -> list float -> list float -> list float ->
  nat -> nat -> nat -> list float.

(** [np.shape(self.tpf[0])]. *)
Definition first_shape (s : TargetData) : result (nat * nat) :=
  let* f := index (tpf s) 0 in
  Ok (np_shape f).

(** [self.all_apertures.append(m)]. *)
Definition append_aperture (m : image) : M unit :=
  let! l := evalM (fun s => read (all_apertures s)) in
  assignM (set_all_apertures (Val (l ++ [m])%list)).

(** [create_apertures] (lines 103-143). The lists [circles] and
    [rectangles] are filled and never read; they are left out. *)
Definition create_apertures : M unit :=
  assignM (set_all_lc PyNone);;
  assignM (set_all_aperture PyNone);;
  let r_list := np_arange 1.5 4 0.5 in
  assignM (set_all_apertures (Val []));;
  forM r_list (fun r =>
    let ap_circ := CircularAperture (4, 4) r in
    let ap_rect := RectangularAperture (4, 4) r r 0 in
    forM ["center"; "exact"] (fun method =>
      let! shp := evalM first_shape in
      let circ_mask := to_image ap_circ method shp in
      let! shp := evalM first_shape in
      let rect_mask := to_image ap_rect method shp in
      append_aperture circ_mask;;
      append_aperture rect_mask)).

(** One cadence of one aperture (lines 176-177): the error first, then the
    flux. *)
Definition cadence_photometry (tpf tpf_err : list image) (ap : image)
    (cad : nat) : result (float * float) :=
  let* e := index tpf_err cad in
  let* e2a := np_mul2 (np_square2 e) ap in
  let lc_err := sqrt (np_sum2 e2a) in
  let* f := index tpf cad in
  let* fa := np_mul2 f ap in
  Ok (np_sum2 fa, lc_err).

(** The loop over the cadences for one aperture (lines 175-177): the flux
    series and the error series of that aperture. *)
Definition photometry (tpf tpf_err : list image) (ap : image)
    : result (list float * list float) :=
  let* row := mapR (cadence_photometry tpf tpf_err ap) (seq 0 (length tpf)) in
  Ok (row.*1, row.*2).

(** [np.where(stds == np.min(stds))[0][0]] (line 182). *)
Definition best_ind (stds : list float) : result nat :=
  let* m := np_min stds in
  index (np_where (map (fun v => v =? m) stds)) 0.

(** One cadence of the user-mask branch (lines 193-194). The first line
    stores into the local [lc]; the second evaluates its right-hand side and
    then needs the name [lc_err], which neither the function nor the module
    binds. A [custom_aperture] that still is the method cannot be
    multiplied. *)
Definition custom_cadence (tpf tpf_err : list image) (ca : custom_slot)
    (cad : nat) : result float :=
  let times_custom (a : image) :=
    match ca with
    | CustomMask m => np_mul2 a m
    | _ => Raise TypeError
    end in
  let* f := index tpf cad in
  let* fa := times_custom f in
  let* e := index tpf_err cad in
  let* ea := times_custom e in
  Raise NameError.

(** [get_lightcurve] (lines 147-199). [custom_mask] is the argument compared
    with [is False]. *)
Definition get_lightcurve (custom_mask : bool) : M unit :=
  assignM (set_flux PyNone);;
  assignM (set_flux_err PyNone);;
  assignM (set_aperture PyNone);;
  if negb custom_mask then
    assignM (set_all_lc PyNone);;
    assignM (set_all_lc_err PyNone);;
    let! aps := evalM (fun s => read (all_apertures s)) in
    let! rows := evalM (fun s => mapR (photometry (tpf s) (tpf_err s)) aps) in
    let stds := map (fun row => np_std row.1) rows in
    assignM (set_all_lc (Val rows.*1));;
    assignM (set_all_lc_err (Val rows.*2));;
    let! best := evalM (fun _ => best_ind stds) in
    let! v := evalM (fun s => let* a := read (all_lc s) in index a best) in
    assignM (set_lc (Val v));;
    let! v := evalM (fun s => let* a := read (all_apertures s) in index a best) in
    assignM (set_aperture (Val v));;
    let! v := evalM (fun s => let* a := read (all_lc_err s) in index a best) in
    assignM (set_lc_err (Val v))
  else
    let! ca := evalM (fun s => Ok (custom_aperture_attr s)) in
    match ca with
    | CustomNone =>
        print "You have not defined a custom aperture. You can do this by calling the function .custom_aperture"
    | _ =>
        let! lc := evalM (fun s =>
          mapR (custom_cadence (tpf s) (tpf_err s) ca) (seq 0 (length (tpf s)))) in
        assignM (set_flux (Val lc));;
        (* self.flux_err = lc_err *)
        evalM (fun _ => Raise NameError)
    end.

(** [custom_aperture] (lines 203-236). [shape] is [None] by default; the
    other defaults are [r = l = w = theta = 0.0], [pos = (4, 4)] and
    [method = 'exact']. Once a call has assigned the attribute of the same
    name, the name no longer holds the method and calling it is a
    [TypeError]. *)
Definition custom_aperture (shape : option string) (r l w theta : float)
    (pos : float * float) (method : string) : M unit :=
  let! callee := evalM (fun s => Ok (custom_aperture_attr s)) in
  match callee with
  | CustomMethod =>
      assignM (set_custom_aperture_attr CustomNone);;
      let! shape := evalM (fun _ =>
        match shape with
        | Some sh => Ok (lower sh)
        | None => Raise AttributeError
        end) in
      if String.eqb shape "circle" then
        if r =? 0 then
          print "Please set a radius (in pixels) for your aperture"
        else
          let aperture := CircularAperture pos r in
          let! shp := evalM first_shape in
          assignM (set_custom_aperture_attr
                     (CustomMask (to_image aperture method shp)))
      else if String.eqb shape "rectangle" then
        if (l =? 0) || (w =? 0) then
          print "For a rectangular aperture, please set both length and width: custom_aperture(shape='rectangle', l=#, w=#)"
        else
          let aperture := RectangularAperture pos l w theta in
          let! shp := evalM first_shape in
          assignM (set_custom_aperture_attr
                     (CustomMask (to_image aperture method shp)))
      else
        print "Aperture shape not recognized. Please set shape == 'circle' or 'rectangle'"
  | _ => evalM (fun _ => Raise TypeError)
  end.

(** The factor of the jitter model on arrays (lines 249 and 272):
    [c1 + c2*(x-2.5) + c3*(x-2.5)**2 + c4*(y-2.5) + c5*(y-2.5)**2],
    added from left to right. *)
Definition quadratic (p : params) (x y : list float) : result (list float) :=
  let '(c1, c2, c3, c4, c5) := p in
  let t2 := map (mul c2) (map (fun v => v - 2.5) x) in
  let t3 := map (mul c3) (map (fun v => v * v) (map (fun v => v - 2.5) x)) in
  let t4 := map (mul c4) (map (fun v => v - 2.5) y) in
  let t5 := map (mul c5) (map (fun v => v * v) (map (fun v => v - 2.5) y)) in
  let* a := np_op1 add (map (add c1) t2) t3 in
  let* a := np_op1 add a t4 in
  np_op1 add a t5.

(** The objective [parabola] (lines 247-250). *)
Definition parabola (p : params) (x y f_obs y_err : list float)
    : result float :=
  let* q := quadratic p x y in
  let* f_corr := np_op1 mul f_obs q in
  let* r := np_op1 div (map (fun v => 1 - v) f_corr) y_err in
  Ok (np_sum (map (fun v => v * v) r)).

(** What one pass of the loop of [jitter_corr] leaves behind. *)
Record round : Type := {
  r_mask : list bool;
  r_y_err : list float;
  r_initGuess : params;
  r_bnds : list (float * float);
  r_test : params;
  r_lc_new : list float
}.

(** The cadences flagged in a pass (line 258), given the mask the pass
    starts with. *)
Definition flagged (lc : list float) (mask : list bool) : list bool :=
  let std_mask := np_std (select lc mask) in
  map (fun v => v <=? np_mean lc - 2.5 * std_mask) lc.

(** One pass of the loop (lines 255-272). [test] is the result of the
    previous pass, unbound in the first one. [1 ** s] is 1 for every [s],
    [nan] included, so [y_err] starts as ones. *)
Definition jitter_round (x_pos y_pos lc : list float) (i : nat)
    (mask : list bool) (test : option params) : result round :=
  let inds := np_where (flagged lc mask) in
  let y_err := replicate (length lc) 1 in
  let y_err := assign inds infinity y_err in
  let mask := assign inds false mask in
  let* initGuess :=
    (if (i =? 0)%nat then Ok (3, 3, 3, 3, 3)
     else match test with
          | Some t => Ok t
          | None => Raise NameError
          end) in
  let bnds := [(-15, 15); (-15, 15); (-15, 15); (-15, 15); (-15, 15)] in
  let test := minimize (fun p => parabola p x_pos y_pos lc y_err) initGuess bnds in
  let* q := quadratic test x_pos y_pos in
  let* lc_new := np_op1 mul lc q in
  Ok {| r_mask := mask; r_y_err := y_err; r_initGuess := initGuess;
        r_bnds := bnds; r_test := test; r_lc_new := lc_new |}.

(** The loop over the indices [rng], as the list of its passes. *)
Fixpoint jitter_loop (x_pos y_pos lc : list float) (rng : list nat)
    (mask : list bool) (test : option params) : result (list round) :=
  match rng with
  | [] => Ok []
  | i :: rng' =>
      let* r := jitter_round x_pos y_pos lc i mask test in
      let* rs := jitter_loop x_pos y_pos lc rng' (r_mask r) (Some (r_test r)) in
      Ok (r :: rs)
  end.

(** The passes of [jitter_corr] on given arrays: [for i in range(5)] from
    the mask of ones. *)
Definition jitter_rounds (x_pos y_pos lc : list float) : result (list round) :=
  jitter_loop x_pos y_pos lc (seq 0 5) (replicate (length lc) true) None.

(** [jitter_corr] (lines 240-274). *)
Definition jitter_corr : M unit :=
  let! x_pos := evalM (fun s => read (centroid_x s)) in
  let! y_pos := evalM (fun s => read (centroid_y s)) in
  let! lc := evalM (fun s => read (Obj.lc s)) in
  let! rs := evalM (fun _ => jitter_rounds x_pos y_pos lc) in
  let! lc_new := evalM (fun _ =>
    match last rs with
    | Some r => Ok (r_lc_new r)
    | None => Raise NameError
    end) in
  assignM (set_lc (Val lc_new)).

(** [rotation_corr] (lines 277-284). *)
Definition rotation_corr : M unit :=
  let! lc := evalM (fun s => read (Obj.lc s)) in
  let time := seq 0 (length lc) in
  let! x_pos := evalM (fun s => read (centroid_x s)) in
  let! y_pos := evalM (fun s => read (centroid_y s)) in
  let lc_new := sff_correct time lc x_pos y_pos 1 1 5 in
  assignM (set_lc (Val lc_new)).

(** [system_corr] (lines 287-294). *)
Definition system_corr (jitter roll : bool) : M unit :=
  (if jitter then jitter_corr else retM tt);;
  (if roll then rotation_corr else retM tt).

End Methods.

Open Scope string_scope.
Open Scope float_scope.

(** ** Reading the arrays pixel by pixel *)

(** An array of [h] rows of [w] values. *)
Definition has_shape (h w : nat) (a : image) : Prop :=
  length a = h /\ Forall (fun r => length r = w) a.

(** The value at row [i] and column [j] (0 outside the array). *)
Definition pixel (a : image) (i j : nat) : float :=
  default 0 (a !! i ≫= fun r => r !! j).

(** The array of shape [(h, w)] with [f i j] at row [i] and column [j]. *)
Definition tabulate (h w : nat) (f : nat -> nat -> float) : image :=
  map (fun i => map (f i) (seq 0 w)) (seq 0 h).

(** *** The order of a sum, read on the positions of the values *)

(** The values at the positions [k], [k + 8], [k + 16], ..., one in each
    of [blocks] blocks of eight, added from left to right. *)
Definition lane (x : nat -> float) (blocks k : nat) : float :=
  fold_left add (map (fun b => x (8 * b + k)%nat) (seq 1 (blocks - 1))) (x k).

(** The sum of [x 0], ..., [x (n - 1)] for [8 <= n <= 128]: the eight
    lanes of the whole blocks are added two by two, then the values after
    the last whole block are added from left to right. *)
Definition block_sum (x : nat -> float) (n : nat) : float :=
  let r := lane x (n / 8) in
  fold_left add (map x (seq (8 * (n / 8)) (n mod 8)))
    (((r 0%nat + r 1%nat) + (r 2%nat + r 3%nat)) +
     ((r 4%nat + r 5%nat) + (r 6%nat + r 7%nat))).

(** The sum of [x 0], ..., [x (n - 1)]: from left to right below 8 values,
    by lanes up to 128, and above as the sum of the first [n2] values plus
    the sum of the others, for [n2] the largest multiple of 8 that is at
    most [n / 2]. A [fuel] of [n] is never used up. *)
Fixpoint halved_sum (fuel : nat) (x : nat -> float) (n : nat) : float :=
  if (n <? 8)%nat then fold_left add (map x (seq 0 n)) 0
  else if (n <=? 128)%nat then block_sum x n
  else match fuel with
       | O => 0
       | S fuel' =>
           let n2 := (n / 2 - (n / 2) mod 8)%nat in
           halved_sum fuel' x n2 +
           halved_sum fuel' (fun i => x (n2 + i)%nat) (n - n2)
       end.

(** The sum over the pixels of an [h] by [w] frame: the pixel at row [i]
    and column [j] has the position [i * w + j]. *)
Definition pixel_sum (h w : nat) (f : nat -> nat -> float) : float :=
  0 + halved_sum (h * w) (fun p => f (p / w)%nat (p mod w)%nat) (h * w).

(** The error of a cadence as the specification words it: the weights
    enter squared. *)
Definition spec_flux_error (h w : nat) (e ap : image) : float :=
  sqrt (pixel_sum h w (fun i j =>
    (pixel e i j * pixel e i j) * (pixel ap i j * pixel ap i j))).

(** ** Reading the selection *)

(** The object once the photometry of every aperture is stored (line 180). *)
Definition after_photometry (rows : list (list float * list float))
    (s : TargetData) : TargetData :=
  set_all_lc_err (Val rows.*2)
    (set_all_lc (Val rows.*1)
       (set_all_lc_err PyNone
          (set_all_lc PyNone
             (set_aperture PyNone
                (set_flux_err PyNone (set_flux PyNone s)))))).

(** The score of an aperture: the standard deviation of its flux series. *)
Definition score (row : list float * list float) : float := np_std row.1.

(** ** Reading the jitter correction *)

(** The factor of the jitter model at one cadence, centred on [(x0, y0)]:
    [c1 + c2 (x - x0) + c3 (x - x0)^2 + c4 (y - y0) + c5 (y - y0)^2]. *)
Definition spec_factor (x0 y0 : float) (p : params) (x y : float) : float :=
  let '(c1, c2, c3, c4, c5) := p in
  c1 + c2 * (x - x0) + c3 * ((x - x0) * (x - x0))
     + c4 * (y - y0) + c5 * ((y - y0) * (y - y0)).

(** The objective of a pass with the factor centred on [(x0, y0)]: the sum
    over the cadences of the squared residuals [(1 - f * factor) / y_err]. *)
Definition spec_objective (x0 y0 : float) (p : params)
    (x y f_obs y_err : list float) : float :=
  np_sum (zip_with (fun fc e => ((1 - fc) / e) * ((1 - fc) / e))
            (zip_with mul f_obs (zip_with (spec_factor x0 y0 p) x y)) y_err).

(** The threshold of a pass as the specification words it: the mean, like
    the standard deviation, is taken over the included cadences. *)
Definition spec_threshold (lc : list float) (mask : list bool) : float :=
  np_mean (select lc mask) - 2.5 * np_std (select lc mask).

(** The mask a pass starts with: ones in the first pass, then the mask the
    pass before left. *)
Definition mask_before (n : nat) (rs : list round) (k : nat) : list bool :=
  match k with
  | O => replicate n true
  | S k' => default [] (r_mask <$> rs !! k')
  end.

(** ** Objects and stand-ins to run the model with *)

(** An object as [get_tpf_from_postcard] leaves it: the cutouts are there,
    nothing else is assigned yet. *)
Definition new_target (tpf tpf_err : list image) : TargetData :=
  {| tpf := tpf; tpf_err := tpf_err;
     centroid_x := Unset; centroid_y := Unset;
     all_lc := Unset; all_lc_err := Unset;
     all_aperture := Unset; all_apertures := Unset;
     lc := Unset; lc_err := Unset;
     flux := Unset; flux_err := Unset;
     aperture := Unset; custom_aperture_attr := CustomMethod;
     stdout := [] |}.

(** A rasteriser to run the model with: a pixel has weight 1 when its
    centre is inside the shape, for either method, and rectangles are taken
    unrotated. It stands in for photutils in the examples. *)
Definition center_raster (ap : aperture_shape) (method : string)
    (shape : nat * nat) : image :=
  let inside (x y : float) : bool :=
    match ap with
    | CircularAperture (cx, cy) r =>
        (x - cx) * (x - cx) + (y - cy) * (y - cy) <? r * r
    | RectangularAperture (cx, cy) l w _ =>
        (abs (x - cx) <=? l / 2) && (abs (y - cy) <=? w / 2)
    end in
  map (fun i => map (fun j => if inside (of_nat j) (of_nat i) then 1 else 0)
                    (seq 0 shape.2)) (seq 0 shape.1).

(** A stand-in for scipy's optimizer to run the model with: it does not
    move, and returns its starting point clipped to the bounds. *)
Definition clip (b : float * float) (v : float) : float :=
  if v <? b.1 then b.1 else if b.2 <? v then b.2 else v.

Definition clip_minimize (f : params -> result float) (x0 : params)
    (bnds : list (float * float)) : params :=
  let '(c1, c2, c3, c4, c5) := x0 in
  match bnds with
  | [b1; b2; b3; b4; b5] =>
      (clip b1 c1, clip b2 c2, clip b3 c3, clip b4 c4, clip b5 c5)
  | _ => x0
  end.

(** A stand-in for lightkurve's corrector: it divides the flux by its mean. *)
Definition mean_normalise (time : list nat) (flux x y : list float)
    (niters windows polyorder : nat) : list float :=
  map (fun v => v / np_mean flux) flux.

(** An object on which the caller has assigned a light curve and the
    centroid arrays that the corrections read. *)
Definition corr_target (l x y : list float) : TargetData :=
  {| tpf := []; tpf_err := [];
     centroid_x := Val x; centroid_y := Val y;
     all_lc := Unset; all_lc_err := Unset;
     all_aperture := Unset; all_apertures := Unset;
     lc := Val l; lc_err := Unset;
     flux := Unset; flux_err := Unset;
     aperture := Unset; custom_aperture_attr := CustomMethod;
     stdout := [] |}.

(** Two cadences of two pixels and three apertures: both pixels, the left
    one, the right one. The last two have the same score. *)
Definition tied_target : TargetData :=
  set_all_apertures (Val [[[1; 1]]; [[1; 0]]; [[0; 1]]])
    (new_target [[[1; 1]]; [[3; 3]]] [[[2; 2]]; [[2; 2]]]).

(** Two cadences of one pixel whose deviations from the mean overflow when
    squared: every score is [infinity]. *)
Definition overflow_target : TargetData :=
  set_all_apertures (Val [[[1]]; [[2]]])
    (new_target [[[0x1p+600]]; [[-0x1p+600]]] [[[0]]; [[0]]]).

(** Two cadences of two finite pixels, 2^1023 then -2^1023, and two
    apertures. The flux of both pixels overflows to [infinity] and
    [neg_infinity], whose mean is [nan]. *)
Definition huge_target : TargetData :=
  set_all_apertures (Val [[[1; 1]]; [[1; 0]]])
    (new_target [[[0x1p+1023; 0x1p+1023]]; [[-0x1p+1023; -0x1p+1023]]]
                [[[0; 0]]; [[0; 0]]]).

(** No cadence at all, and a catalog of one aperture. *)
Definition empty_target : TargetData :=
  set_all_apertures (Val [[[1]]]) (new_target [] []).

(** A 9 by 9 frame of zeros. *)
Definition blank_frame : image := replicate 9 (replicate 9 0).

(** Eleven cadences: nine at 10, one at 9.5 and a dip to 0. *)
Definition dip_lc : list float := [10; 10; 10; 10; 10; 10; 10; 10; 10; 9.5; 0].
Definition still_xy : list float := replicate 11 4.

(** ** What the methods leave alone *)

(** What a [TargetData] is given and never computes itself: the cutouts and
    the centroid arrays. *)
Definition inputs (s : TargetData)
    : list image * list image * attr (list float) * attr (list float) :=
  (tpf s, tpf_err s, centroid_x s, centroid_y s).

(** A method keeps the inputs when they are the same after it, whatever its
    outcome. *)
Definition keeps_inputs {A} (m : M A) : Prop :=
  forall s, inputs (m s).1 = inputs s.

(** A call of a method of the class with its arguments. *)
Inductive call : Type :=
  | Call_create_apertures
  | Call_get_lightcurve (custom_mask : bool)
  | Call_custom_aperture (shape : option string) (r l w theta : float)
      (pos : float * float) (method : string)
  | Call_jitter_corr
  | Call_rotation_corr
  | Call_system_corr (jitter roll : bool).

Section Calls.
Variable to_image : aperture_shape -> string -> nat * nat -> image.
Variable minimize :
  (params -> result float) -> params -> list (float * float) -> params.
Variable sff_correct :
  list nat -> list float -> list float -> list float ->
  nat -> nat -> nat -> list float.

Definition run_call (c : call) : M unit :=
  match c with
  | Call_create_apertures => create_apertures to_image
  | Call_get_lightcurve custom_mask => get_lightcurve custom_mask
  | Call_custom_aperture shape r l w theta pos method =>
      custom_aperture to_image shape r l w theta pos method
  | Call_jitter_corr => jitter_corr minimize
  | Call_rotation_corr => rotation_corr sff_correct
  | Call_system_corr jitter roll => system_corr minimize sff_correct jitter roll
  end.

(** A session: the calls are made one after the other on the same object,
    each whatever the outcome of the one before (an exception leaves the
    object as it was when raised). *)
Fixpoint run_calls (cs : list call) (s : TargetData) : TargetData :=
  match cs with
  | [] => s
  | c :: cs' => run_calls cs' (run_call c s).1
  end.

End Calls.

(** ** Not-a-number and zero through the arithmetic *)

(** A zero of either sign. *)
Definition is_zero (x : float) : Prop := exists s, Prim2SF x = S754_zero s.

(** A zero or a finite non-zero value: neither infinite nor [nan]. *)
Definition is_finite (x : float) : Prop :=
  match Prim2SF x with
  | S754_zero _ | S754_finite _ _ _ => True
  | _ => False
  end.

(** The catalog that [create_apertures] builds for frames of shape
    [shape]. *)
Definition aperture_catalog
    (to_image : aperture_shape -> string -> nat * nat -> image)
    (shape : nat * nat) : list image :=
  flat_map (fun r =>
    flat_map (fun method =>
      [to_image (CircularAperture (4, 4) r) method shape;
       to_image (RectangularAperture (4, 4) r r 0) method shape])
      ["center"; "exact"])
    [1.5; 2; 2.5; 3; 3.5].

(** The object once the attributes of the catalog branch are cleared
    (lines 161-168). *)
Definition cleared (s : TargetData) : TargetData :=
  set_all_lc_err PyNone
    (set_all_lc PyNone
       (set_aperture PyNone (set_flux_err PyNone (set_flux PyNone s)))).

(** ** The cutout around the source ([get_tpf_from_postcard]) *)
Module Cutout.

(** An array with three axes, as nested lists. An axis after an empty one
    has length 0. *)
Abbreviation cube := (list (list (list float))).

Definition np_shape3 (a : cube) : nat * nat * nat :=
  (length a,
   match a with r :: _ => length r | [] => O end,
   match a with (c :: _) :: _ => length c | _ => O end).

(** [a[i][j][k]] (0 outside the array). *)
Definition item (a : cube) (i j k : nat) : float :=
  default 0 (a !! i ≫= fun r => r !! j ≫= fun c => c !! k).

(** [np.transpose(a, (2, 0, 1))]: the last axis comes first. *)
Definition transpose_201 (a : cube) : cube :=
  let '(n0, n1, n2) := np_shape3 a in
  map (fun k => map (fun i => map (fun j => item a i j k) (seq 0 n1))
                    (seq 0 n0)) (seq 0 n2).

(** [l[lo:hi]]: a negative bound counts from the end, and both bounds are
    clipped to the sequence. *)
Definition py_slice {A} (lo hi : Z) (l : list A) : list A :=
  let n := Z.of_nat (length l) in
  let adjust (i : Z) : Z :=
    if (i <? 0)%Z then Z.max 0 (i + n) else Z.min i n in
  take (Z.to_nat (adjust hi - adjust lo)) (drop (Z.to_nat (adjust lo)) l).

(** [a[:, y0:y1, x0:x1]]. *)
Definition slice_frames (y0 y1 x0 x1 : Z) (a : cube) : list image :=
  map (fun frame => map (py_slice x0 x1) (py_slice y0 y1 frame)) a.

Fixpoint insert_sorted (x : float) (l : list float) : list float :=
  match l with
  | [] => [x]
  | y :: l' => if x <=? y then x :: l else y :: insert_sorted x l'
  end.

Definition np_sort (l : list float) : list float := foldr insert_sorted [] l.

(** [np.nanmedian] of a sequence: the [nan] values are dropped; the median
    of none is [nan]; of an odd number, the mean of the middle value; of an
    even number, the mean of the two middle values. *)
Definition np_nanmedian (l : list float) : float :=
  let part := np_sort (filter (fun v => negb (is_nan v)) l) in
  let sz := length part in
  let index := (sz / 2)%nat in
  if (sz =? 0)%nat then nan
  else if Nat.odd sz then np_mean (take 1 (drop index part))
  else np_mean (take 2 (drop (index - 1) part)).

(** What the function can raise: a built-in exception of [Py], or the
    [OverflowError] of [int] on an infinity. *)
Inductive load_exn : Set :=
  | Builtin (e : exn)
  | OverflowError.

(** [int(np.floor(m))]: [ValueError] on [nan], [OverflowError] on an
    infinity. *)
Definition int_floor (m : float) : load_exn + Z :=
  match Prim2SF m with
  | S754_nan => inl (Builtin ValueError)
  | S754_infinity _ => inl OverflowError
  | S754_zero _ => inr 0%Z
  | S754_finite s mant e =>
      let n := if s then Z.neg mant else Z.pos mant in
      inr (if (0 <=? e)%Z then n * 2 ^ e else n / 2 ^ (- e))%Z
  end.

Section Postcard.
(** The result of [WCS(...).all_world2pix] and a row of the pointing model
    are opaque to the function. *)
Variables XY Row : Type.

(** [use_pointing_model] of the module [ffi], which is not in the sources
    at hand; it returns an array with two axes. *)
Variable use_pointing_model : XY -> Row -> list (list float).

(** The attributes that [get_tpf_from_postcard] reads and assigns. *)
Record loading : Type := {
  post_obj_flux : cube;
  post_obj_flux_err : cube;
  pointing_model : list Row;
  self_tpf : attr (list image);
  self_tpf_err : attr (list image);
  centroid_xs : attr (list float);
  centroid_ys : attr (list float)
}.

(** The loop of [apply_pointing_model] (lines 80-83). *)
Definition apply_pointing_model (xy : XY) (model : list Row)
    : result (list float * list float) :=
  let* coords := mapR (fun row =>
      let new_coords := use_pointing_model xy row in
      let* r0 := index new_coords 0 in
      let* x := index r0 0 in
      let* r0' := index new_coords 0 in
      let* y := index r0' 1 in
      Ok (x, y)) model in
  Ok (coords.*1, coords.*2).

(** [get_tpf_from_postcard] (lines 58-100), given the pixel position [xy]
    that the world coordinate system returns for the source (line 88). *)
Definition get_tpf_from_postcard (xy : XY) (s : loading)
    : loading * (load_exn + unit) :=
  let s := {| post_obj_flux := post_obj_flux s;
              post_obj_flux_err := post_obj_flux_err s;
              pointing_model := pointing_model s;
              self_tpf := PyNone; self_tpf_err := self_tpf_err s;
              centroid_xs := PyNone; centroid_ys := PyNone |} in
  match apply_pointing_model xy (pointing_model s) with
  | Raise e => (s, inl (Builtin e))
  | Ok (xs, ys) =>
      let s := {| post_obj_flux := post_obj_flux s;
                  post_obj_flux_err := post_obj_flux_err s;
                  pointing_model := pointing_model s;
                  self_tpf := self_tpf s; self_tpf_err := self_tpf_err s;
                  centroid_xs := Val xs; centroid_ys := Val ys |} in
      match int_floor (np_nanmedian xs) with
      | inl e => (s, inl e)
      | inr med_x =>
          match int_floor (np_nanmedian ys) with
          | inl e => (s, inl e)
          | inr med_y =>
              let post_flux := transpose_201 (post_obj_flux s) in
              let post_err := transpose_201 (post_obj_flux_err s) in
              ({| post_obj_flux := post_obj_flux s;
                  post_obj_flux_err := post_obj_flux_err s;
                  pointing_model := pointing_model s;
                  self_tpf :=
                    Val (slice_frames (med_y - 4) (med_y + 5)
                           (med_x - 4) (med_x + 5) post_flux);
                  self_tpf_err :=
                    Val (slice_frames (med_y - 4) (med_y + 5)
                           (med_x - 4) (med_x + 5) post_err);
                  centroid_xs := centroid_xs s;
                  centroid_ys := centroid_ys s |}, inr tt)
          end
      end
  end.

End Postcard.

Arguments post_obj_flux {Row} _.
Arguments post_obj_flux_err {Row} _.
Arguments pointing_model {Row} _.
Arguments self_tpf {Row} _.
Arguments self_tpf_err {Row} _.
Arguments centroid_xs {Row} _.
Arguments centroid_ys {Row} _.
Arguments apply_pointing_model {XY Row} _ _ _.
Arguments get_tpf_from_postcard {XY Row} _ _ _.

End Cutout.

Import Cutout.

(** An array of shape [(n0, n1, n2)]. *)
Definition has_shape3 (n0 n1 n2 : nat) (a : cube) : Prop :=
  length a = n0 /\
  Forall (fun r => length r = n1 /\ Forall (fun c => length c = n2) r) a.

(** The array of shape [(n0, n1, n2)] with [f i j k] at [(i, j, k)]. *)
Definition cube_of (n0 n1 n2 : nat) (f : nat -> nat -> nat -> float) : cube :=
  map (fun i => map (fun j => map (f i j) (seq 0 n2)) (seq 0 n1)) (seq 0 n0).

(** A postcard of 13 by 13 pixels and 2 cadences whose values tell their
    place: 100 row + column, plus a half in the second cadence. *)
Definition ramp_postcard : cube :=
  cube_of 13 13 2 (fun i j k => of_nat (100 * i + j) + of_nat k * 0.5).

(** A pointing model to run the model with: each row is an offset added to
    the position. *)
Definition shift_pointing (xy : float * float) (row : float * float)
    : list (list float) :=
  [[xy.1 + row.1; xy.2 + row.2]].

Definition ramp_loading (model : list (float * float))
    : loading (float * float) :=
  {| post_obj_flux := ramp_postcard;
     post_obj_flux_err := cube_of 13 13 2 (fun _ _ _ => 1);
     pointing_model := model;
     self_tpf := Unset; self_tpf_err := Unset;
     centroid_xs := Unset; centroid_ys := Unset |}.

Definition three_offsets : list (float * float) :=
  [(0, 0); (0.5, -0.5); (0.25, 0.25)].

(** A 9 by 9 frame at 1 with the value [v] in the middle. *)
Definition star_frame (v : float) : image :=
  tabulate 9 9 (fun i j => if ((i =? 4) && (j =? 4))%nat then v else 1).

(** ** The order of binary64 values *)
Module F64.
Open Scope float_scope.

(** A value is ordered when it is not [nan]. *)
Definition ordered (x : float) : Prop := is_nan x = false.

(** The rank of a value that is not [nan]: comparing ranks lexicographically
    is comparing the values. Both zeros have the same rank. *)
Definition rank (x : spec_float) : Z * Z * Z :=
  match x with
  | S754_zero _ => (0, 0, 0)%Z
  | S754_infinity s => (if s then -2 else 2, 0, 0)%Z
  | S754_nan => (3, 0, 0)%Z
  | S754_finite s m e => if s then (-1, - e, Z.neg m)%Z else (1, e, Z.pos m)%Z
  end.

Definition rank_lt (a b : Z * Z * Z) : Prop :=
  (a.1.1 < b.1.1 \/
   (a.1.1 = b.1.1 /\ (a.1.2 < b.1.2 \/ (a.1.2 = b.1.2 /\ a.2 < b.2))))%Z.

Definition rank_cmp (c : comparison) (a b : Z * Z * Z) : Prop :=
  match c with
  | Lt => rank_lt a b
  | Eq => a = b
  | Gt => rank_lt b a
  end.

Lemma SFcompare_rank x y :
  x <> S754_nan -> y <> S754_nan ->
  exists c, SFcompare x y = Some c /\ rank_cmp c (rank x) (rank y).
Proof.
  destruct x as [sx|sx| |sx mx ex], y as [sy|sy| |sy my ey]; intros Hx Hy;
    try congruence;
    repeat match goal with s : bool |- _ => destruct s end; simpl;
    try (eexists; split; [reflexivity|]; simpl; unfold rank_lt; simpl;
         first [reflexivity | lia]).
  all: change (PosDef.Pos.compare_cont Eq mx my) with (Pos.compare mx my).
  all: destruct (Z.compare_spec ex ey);
    try (eexists; split; [reflexivity|]; simpl; unfold rank_lt; simpl; lia).
  all: destruct (Pos.compare_spec mx my);
    eexists; (split; [reflexivity|]); simpl; unfold rank_lt; simpl; subst;
    first [reflexivity | lia].
Qed.

Lemma SFcompare_nan_l y : SFcompare S754_nan y = None.
Proof. reflexivity. Qed.

Lemma SFcompare_nan_r x : SFcompare x S754_nan = None.
Proof. by destruct x. Qed.

Lemma ordered_spec x : ordered x <-> Prim2SF x <> S754_nan.
Proof.
  unfold ordered, is_nan. rewrite FloatAxioms.eqb_spec. unfold SFeqb. split.
  - intros H E. rewrite E in H. discriminate.
  - intros H. destruct (SFcompare_rank _ _ H H) as (c & -> & Hc).
    destruct c; simpl in *; try reflexivity;
      unfold rank_lt in Hc; lia.
Qed.

(** The three comparisons of two ordered values, read on their ranks. *)
Lemma compare_ordered x y :
  ordered x -> ordered y ->
  exists c, rank_cmp c (rank (Prim2SF x)) (rank (Prim2SF y)) /\
    (x =? y) = match c with Eq => true | _ => false end /\
    (x <? y) = match c with Lt => true | _ => false end /\
    (x <=? y) = match c with Gt => false | _ => true end.
Proof.
  rewrite !ordered_spec. intros Hx Hy.
  destruct (SFcompare_rank _ _ Hx Hy) as (c & E & Hc).
  exists c. rewrite FloatAxioms.eqb_spec, FloatAxioms.ltb_spec, FloatAxioms.leb_spec.
  unfold SFeqb, SFltb, SFleb. rewrite E. by destruct c.
Qed.

(** A comparison that holds has ordered operands. *)
Lemma compare_unordered x y :
  ~ (ordered x /\ ordered y) ->
  (x =? y) = false /\ (x <? y) = false /\ (x <=? y) = false.
Proof.
  rewrite !ordered_spec, FloatAxioms.eqb_spec, FloatAxioms.ltb_spec, FloatAxioms.leb_spec.
  unfold SFeqb, SFltb, SFleb. intros H.
  destruct (Prim2SF x) eqn:Ex; try (destruct (Prim2SF y) eqn:Ey);
    try (by rewrite ?SFcompare_nan_r);
    exfalso; apply H; split; congruence.
Qed.

Lemma leb_ordered x y : (x <=? y) = true -> ordered x /\ ordered y.
Proof.
  intros H. destruct (is_nan x) eqn:Hx; [|destruct (is_nan y) eqn:Hy].
  3: done.
  all: destruct (compare_unordered x y) as (_ & _ & E);
    [ unfold ordered; intros [? ?]; congruence | congruence ].
Qed.

Lemma eqb_ordered x y : (x =? y) = true -> ordered x /\ ordered y.
Proof.
  intros H. destruct (is_nan x) eqn:Hx; [|destruct (is_nan y) eqn:Hy].
  3: done.
  all: destruct (compare_unordered x y) as (E & _ & _);
    [ unfold ordered; intros [? ?]; congruence | congruence ].
Qed.

Ltac by_rank :=
  repeat match goal with
  | H : rank_cmp ?c _ _ |- _ => is_var c; destruct c
  end;
  unfold rank_cmp in *;
  unfold rank_lt in *;
  repeat match goal with
  | H : context [rank ?x] |- _ =>
      let a := fresh "a" in let b := fresh "b" in let c := fresh "c" in
      destruct (rank x) as [[a b] c]
  | |- context [rank ?x] =>
      let a := fresh "a" in let b := fresh "b" in let c := fresh "c" in
      destruct (rank x) as [[a b] c]
  end;
  simpl in *;
  repeat match goal with
  | H : (_, _) = (_, _) |- _ => injection H as ? ? ?
  | H : (_, _) = (_, _) |- _ => injection H as ? ?
  end;
  subst; try discriminate; try reflexivity; try lia; try (exfalso; lia).

Lemma leb_refl x : ordered x -> (x <=? x) = true.
Proof.
  intros Hx. destruct (compare_ordered x x Hx Hx) as (c & Hc & _ & _ & ->).
  by_rank.
Qed.

Lemma leb_total x y :
  ordered x -> ordered y -> (x <=? y) = true \/ (y <? x) = true.
Proof.
  intros Hx Hy.
  destruct (compare_ordered x y Hx Hy) as (c & Hc & _ & _ & ->).
  destruct (compare_ordered y x Hy Hx) as (c' & Hc' & _ & -> & _).
  destruct c; [by left|by left|right]. by_rank.
Qed.

Lemma leb_trans x y z :
  (x <=? y) = true -> (y <=? z) = true -> (x <=? z) = true.
Proof.
  intros Hxy Hyz.
  destruct (leb_ordered _ _ Hxy) as [Hx Hy], (leb_ordered _ _ Hyz) as [_ Hz].
  destruct (compare_ordered x y Hx Hy) as (c1 & H1 & _ & _ & E1).
  destruct (compare_ordered y z Hy Hz) as (c2 & H2 & _ & _ & E2).
  destruct (compare_ordered x z Hx Hz) as (c3 & H3 & _ & _ & ->).
  rewrite E1 in Hxy. rewrite E2 in Hyz. by_rank.
Qed.

Lemma ltb_leb x y : (x <? y) = true -> (x <=? y) = true.
Proof.
  intros H. destruct (is_nan x) eqn:Hx; [|destruct (is_nan y) eqn:Hy].
  3: { destruct (compare_ordered x y Hx Hy) as (c & Hc & _ & E1 & ->).
       rewrite E1 in H. by destruct c. }
  all: destruct (compare_unordered x y) as (_ & E & _);
    [ unfold ordered; intros [? ?]; congruence | congruence ].
Qed.

Lemma eqb_leb_l x y z :
  (x =? y) = true -> (y <=? z) = true -> (x <=? z) = true.
Proof.
  intros Hxy Hyz.
  destruct (eqb_ordered _ _ Hxy) as [Hx Hy], (leb_ordered _ _ Hyz) as [_ Hz].
  destruct (compare_ordered x y Hx Hy) as (c1 & H1 & E1 & _ & _).
  destruct (compare_ordered y z Hy Hz) as (c2 & H2 & _ & _ & E2).
  destruct (compare_ordered x z Hx Hz) as (c3 & H3 & _ & _ & ->).
  rewrite E1 in Hxy. rewrite E2 in Hyz. by_rank.
Qed.

(** Below or equal, and not equal, is strictly below. *)
Lemma leb_neq_ltb x m v :
  (x =? m) = true -> (m <=? v) = true -> (v =? m) = false -> (x <? v) = true.
Proof.
  intros Hxm Hmv Hvm.
  destruct (eqb_ordered _ _ Hxm) as [Hx Hm], (leb_ordered _ _ Hmv) as [_ Hv].
  destruct (compare_ordered x m Hx Hm) as (c1 & H1 & E1 & _ & _).
  destruct (compare_ordered m v Hm Hv) as (c2 & H2 & _ & _ & E2).
  destruct (compare_ordered v m Hv Hm) as (c3 & H3 & E3 & _ & _).
  destruct (compare_ordered x v Hx Hv) as (c4 & H4 & _ & -> & _).
  rewrite E1 in Hxm. rewrite E2 in Hmv. rewrite E3 in Hvm. by_rank.
Qed.

Lemma eqb_refl x : ordered x -> (x =? x) = true.
Proof. unfold ordered, is_nan. by destruct (x =? x). Qed.

End F64.
Import F64.

(** ** Running a method *)

Ltac obj_simpl :=
  cbn [tpf tpf_err centroid_x centroid_y all_lc all_lc_err all_aperture
       all_apertures lc lc_err flux flux_err aperture custom_aperture_attr
       stdout set_all_lc set_all_lc_err set_all_aperture set_all_apertures
       set_lc set_lc_err set_flux set_flux_err set_aperture
       set_custom_aperture_attr set_stdout read bindR fst snd].

Ltac run_method :=
  unfold bindM, assignM, evalM, retM; obj_simpl.

(** ** Lists, outcomes and shapes *)

Section Helpers.

Lemma map_fmap {A B} (f : A -> B) (l : list A) : map f l = f <$> l.
Proof. reflexivity. Qed.

Lemma mapR_Ok_Forall2 {A B} (f : A -> result B) l ys :
  mapR f l = Ok ys <-> Forall2 (fun x y => f x = Ok y) l ys.
Proof.
  revert ys. induction l as [|x l IH]; intros ys; simpl.
  - split.
    + intros [= <-]. constructor.
    + intros H. by inversion H.
  - split.
    + destruct (f x) as [y|e] eqn:Hx; simpl; [|done].
      destruct (mapR f l) as [ys'|e] eqn:Hl; simpl; [|done].
      intros [= <-]. constructor; [done|]. by apply IH.
    + intros H. inversion H as [|? y ? ys' Hx Hl]; subst.
      rewrite Hx. simpl. apply IH in Hl. by rewrite Hl.
Qed.

Lemma mapR_total {A B} (f : A -> result B) (g : A -> B) l :
  Forall (fun x => f x = Ok (g x)) l -> mapR f l = Ok (map g l).
Proof.
  intros H. apply mapR_Ok_Forall2. induction H; simpl; by constructor.
Qed.

Lemma mapR_raise {A B} (f : A -> result B) l i x e :
  l !! i = Some x -> f x = Raise e ->
  (forall j y, j < i -> l !! j = Some y -> exists z, f y = Ok z) ->
  mapR f l = Raise e.
Proof.
  revert i. induction l as [|y l IH]; intros [|i] Hi Hx Hlt; simplify_eq/=.
  - by rewrite Hx.
  - destruct (Hlt O y) as [z ->]; [lia|done|]. simpl.
    rewrite (IH i); [done..|].
    intros j y' Hj Hy'. apply (Hlt (S j)); [lia|done].
Qed.

Lemma broadcast_same_length {A B C} (op : A -> B -> result C) a b :
  length a = length b ->
  broadcast op a b = mapR (fun p => op p.1 p.2) (zip a b).
Proof. intros H. unfold broadcast. by rewrite H, Nat.eqb_refl. Qed.

Lemma np_op1_same_length op (a b : list float) :
  length a = length b -> np_op1 op a b = Ok (zip_with op a b).
Proof.
  intros H. unfold np_op1. rewrite broadcast_same_length by done.
  rewrite (mapR_total _ (fun p => op p.1 p.2)).
  - f_equal. clear H. revert b. induction a as [|x a IH]; intros [|y b]; simpl; [done..|].
    by rewrite IH.
  - by apply Forall_forall.
Qed.

Lemma pixel_lookup (a : image) i j r v :
  a !! i = Some r -> r !! j = Some v -> pixel a i j = v.
Proof. unfold pixel. intros Ha Hr. rewrite Ha. simpl. by rewrite Hr. Qed.

Lemma has_shape_lookup h w a i r :
  has_shape h w a -> a !! i = Some r -> length r = w.
Proof. intros [_ H] Hi. by apply (Forall_lookup_1 _ _ _ _ H Hi). Qed.

Lemma tabulate_shape h w f : has_shape h w (tabulate h w f).
Proof.
  split; unfold tabulate.
  - by rewrite length_map, length_seq.
  - apply Forall_forall. intros r Hr. apply list_elem_of_fmap in Hr as (i & -> & _).
    by rewrite length_map, length_seq.
Qed.

(** Combining two frames of one shape pixel by pixel. *)
Lemma zip_with_pixels op h w a b :
  has_shape h w a -> has_shape h w b ->
  zip_with (zip_with op) a b =
  tabulate h w (fun i j => op (pixel a i j) (pixel b i j)).
Proof.
  intros Ha Hb. apply list_eq. intros i. unfold tabulate.
  rewrite lookup_zip_with, list_lookup_fmap.
  destruct (decide (i < h)) as [Hi|Hi].
  - rewrite lookup_seq_lt by done. simpl.
    destruct (lookup_lt_is_Some_2 a i) as [ra Hra]; [by rewrite (proj1 Ha)|].
    destruct (lookup_lt_is_Some_2 b i) as [rb Hrb]; [by rewrite (proj1 Hb)|].
    rewrite Hra, Hrb. simpl. f_equal.
    pose proof (has_shape_lookup _ _ _ _ _ Ha Hra) as Hla.
    pose proof (has_shape_lookup _ _ _ _ _ Hb Hrb) as Hlb.
    apply list_eq. intros j.
    rewrite lookup_zip_with, list_lookup_fmap.
    destruct (decide (j < w)) as [Hj|Hj].
    + rewrite lookup_seq_lt by done. simpl.
      destruct (lookup_lt_is_Some_2 ra j) as [x Hx]; [lia|].
      destruct (lookup_lt_is_Some_2 rb j) as [y Hy]; [lia|].
      rewrite Hx, Hy. simpl.
      by rewrite (pixel_lookup _ _ _ _ _ Hra Hx), (pixel_lookup _ _ _ _ _ Hrb Hy).
    + rewrite lookup_seq_ge by lia. simpl.
      by rewrite (lookup_ge_None_2 ra) by lia.
  - rewrite lookup_seq_ge by lia. simpl.
    by rewrite (lookup_ge_None_2 a) by (rewrite (proj1 Ha); lia).
Qed.

Lemma np_mul2_same_shape h w a b :
  has_shape h w a -> has_shape h w b ->
  np_mul2 a b = Ok (tabulate h w (fun i j => pixel a i j * pixel b i j)).
Proof.
  intros Ha Hb. unfold np_mul2.
  rewrite broadcast_same_length by (by rewrite (proj1 Ha), (proj1 Hb)).
  rewrite <- (zip_with_pixels mul h w a b Ha Hb).
  apply mapR_Ok_Forall2.
  destruct Ha as [<- Ha], Hb as [Hlen Hb].
  revert b Hlen Hb. induction a as [|ra a IH]; intros [|rb b] Hlen Hb;
    simplify_eq/=; constructor.
  - simpl. apply np_op1_same_length.
    apply Forall_cons in Ha as [-> _]. by apply Forall_cons in Hb as [-> _].
  - apply Forall_cons in Ha as [_ Ha]. apply Forall_cons in Hb as [_ Hb].
    by apply IH.
Qed.

Lemma np_square2_pixels h w e :
  has_shape h w e ->
  np_square2 e = tabulate h w (fun i j => pixel e i j * pixel e i j).
Proof.
  intros He. rewrite <- (zip_with_pixels mul h w e e He He).
  unfold np_square2. rewrite zip_with_diag. apply map_ext. intros r.
  by rewrite zip_with_diag.
Qed.

Lemma pixel_tabulate h w f i j :
  i < h -> j < w -> pixel (tabulate h w f) i j = f i j.
Proof.
  intros Hi Hj. unfold pixel, tabulate. rewrite !map_fmap.
  rewrite list_lookup_fmap, lookup_seq_lt by done. simpl.
  by rewrite list_lookup_fmap, lookup_seq_lt.
Qed.

Lemma tabulate_ext h w f g :
  (forall i j, i < h -> j < w -> f i j = g i j) -> tabulate h w f = tabulate h w g.
Proof.
  intros H. unfold tabulate. apply map_ext_in. intros i Hi%in_seq.
  apply map_ext_in. intros j Hj%in_seq. apply H; lia.
Qed.

End Helpers.

(** ** The order of numpy's sums *)

Section Sums.

Lemma fold_add_shift (x : nat -> float) s b v :
  fold_left add (map (fun j => x (s + 8 + 8 * j)%nat) (seq 0 b)) (v + x s) =
  fold_left add (map (fun j => x (s + 8 * j)%nat) (seq 0 (S b))) v.
Proof.
  change (seq 0 (S b)) with (O :: seq 1 b). rewrite <- seq_shift.
  cbn [map fold_left]. rewrite map_map, Nat.mul_0_r, Nat.add_0_r. f_equal.
  apply map_ext. intros j. f_equal. lia.
Qed.

Lemma map_seq_shift {A} (g : nat -> A) k n :
  map g (seq k n) = map (fun i => g (k + i)%nat) (seq 0 n).
Proof.
  revert k. induction n as [|n IH]; intros k; [done|].
  cbn [seq map]. rewrite Nat.add_0_r. f_equal.
  rewrite IH, <- seq_shift, map_map. apply map_ext. intros i. f_equal. lia.
Qed.

Lemma take_drop_positions (x : nat -> float) s k m :
  (k <= m)%nat ->
  take k (map (fun i => x (s + i)%nat) (seq 0 m)) =
    map (fun i => x (s + i)%nat) (seq 0 k) /\
  drop k (map (fun i => x (s + i)%nat) (seq 0 m)) =
    map (fun i => x (s + k + i)%nat) (seq 0 (m - k)).
Proof.
  intros Hk. replace m with (k + (m - k))%nat at 1 2 by lia.
  rewrite seq_app, map_app, take_app_length', drop_app_length'
    by (by rewrite length_map, length_seq).
  split; [done|]. rewrite map_seq_shift.
  apply map_ext. intros i. f_equal. lia.
Qed.

Lemma map_zip_seq8 {A B} (g : nat -> A -> B) r0 r1 r2 r3 r4 r5 r6 r7 :
  map (fun p => g p.1 p.2) (zip (seq 0 8) [r0; r1; r2; r3; r4; r5; r6; r7]) =
  [g 0%nat r0; g 1%nat r1; g 2%nat r2; g 3%nat r3;
   g 4%nat r4; g 5%nat r5; g 6%nat r6; g 7%nat r7].
Proof. reflexivity. Qed.

(** After [b] passes of the unrolled loop, accumulator [k] has taken the
    values [k], [k + 8], ... of the [b] blocks. *)
Lemma unrolled_lanes (x : nat -> float) b s m r0 r1 r2 r3 r4 r5 r6 r7 :
  (8 * b <= m)%nat ->
  unrolled b [r0; r1; r2; r3; r4; r5; r6; r7]
    (map (fun i => x (s + i)%nat) (seq 0 m)) =
  (map (fun p =>
          fold_left add (map (fun j => x (s + p.1 + 8 * j)%nat) (seq 0 b)) p.2)
       (zip (seq 0 8) [r0; r1; r2; r3; r4; r5; r6; r7]),
   map (fun i => x (s + 8 * b + i)%nat) (seq 0 (m - 8 * b))).
Proof.
  revert s m r0 r1 r2 r3 r4 r5 r6 r7.
  induction b as [|b IH]; intros s m r0 r1 r2 r3 r4 r5 r6 r7 Hm.
  - cbn [unrolled seq map fold_left zip zip_with]. f_equal.
    rewrite Nat.sub_0_r. apply map_ext. intros i. f_equal. lia.
  - cbn [unrolled].
    destruct (take_drop_positions x s 8 m ltac:(lia)) as [-> ->].
    rewrite (map_zip_seq8 (fun k v =>
      fold_left add (map (fun j => x (s + k + 8 * j)%nat) (seq 0 (S b))) v)).
    match goal with |- _ = ?r => set (rhs := r) end.
    cbn [seq map zip_with]. rewrite (IH (s + 8)%nat (m - 8)%nat) by lia.
    rewrite (map_zip_seq8 (fun k v =>
      fold_left add (map (fun j => x (s + 8 + k + 8 * j)%nat) (seq 0 b)) v)).
    subst rhs.
    f_equal.
    + rewrite <- !(fold_add_shift x _ b).
      repeat (f_equal; try (apply map_ext; intros j; f_equal; lia)).
    + replace (m - 8 - 8 * b)%nat with (m - 8 * S b)%nat by lia.
      apply map_ext. intros i. f_equal. lia.
Qed.

Lemma lane_fold (x : nat -> float) blocks k :
  fold_left add (map (fun j => x (8 + k + 8 * j)%nat) (seq 0 (blocks - 1)))
    (x k) = lane x blocks k.
Proof.
  unfold lane. rewrite (map_seq_shift _ 1). f_equal.
  apply map_ext. intros j. f_equal. lia.
Qed.

(** The loop over the blocks computes the sum by lanes. *)
Lemma pairwise_block_lanes (x : nat -> float) n :
  (8 <= n)%nat -> pairwise_block (map x (seq 0 n)) = block_sum x n.
Proof.
  intros Hn. unfold pairwise_block. rewrite length_map, length_seq.
  destruct (take_drop_positions x 0 8 n Hn) as [Ht Hd].
  change (map x (seq 0 n)) with (map (fun i => x (0 + i)%nat) (seq 0 n)).
  rewrite Ht, Hd.
  change (map (fun i => x (0 + i)%nat) (seq 0 8))
    with [x 0%nat; x 1%nat; x 2%nat; x 3%nat; x 4%nat; x 5%nat; x 6%nat;
          x 7%nat].
  pose proof (Nat.div_mod_eq n 8) as Hdiv.
  assert (1 <= n / 8)%nat as Hq by (apply Nat.div_le_lower_bound; lia).
  rewrite (unrolled_lanes x (n / 8 - 1) (0 + 8) (n - 8)) by lia.
  rewrite (map_zip_seq8 (fun k v =>
    fold_left add (map (fun j => x (0 + 8 + k + 8 * j)%nat)
                       (seq 0 (n / 8 - 1))) v)).
  cbn [nth Nat.add]. unfold block_sum.
  rewrite <- !lane_fold. cbn [Nat.add].
  f_equal.
  replace (n - 8 - 8 * (n / 8 - 1))%nat with (n mod 8) by lia.
  rewrite (map_seq_shift x). apply map_ext. intros i. f_equal. lia.
Qed.

(** numpy's sum of the values [x 0], ..., [x (n - 1)] is their sum in the
    order that [halved_sum] reads on the positions. *)
Lemma pairwise_sum_positions fuel (x : nat -> float) n :
  pairwise_sum fuel (map x (seq 0 n)) = halved_sum fuel x n.
Proof.
  revert x n. induction fuel as [|fuel IH]; intros x n;
    cbn [pairwise_sum halved_sum]; rewrite length_map, length_seq;
    destruct (n <? 8)%nat eqn:H8; try done;
    destruct (n <=? 128)%nat eqn:H128; try done;
    try (apply pairwise_block_lanes; apply Nat.ltb_ge in H8; lia).
  apply Nat.leb_gt in H128.
  set (n2 := (n / 2 - (n / 2) mod 8)%nat).
  assert (n2 <= n)%nat as Hn2.
  { unfold n2. pose proof (Nat.div_mod_eq n 2). lia. }
  destruct (take_drop_positions x 0 n2 n Hn2) as [Ht Hd].
  change (map x (seq 0 n)) with (map (fun i => x (0 + i)%nat) (seq 0 n)).
  rewrite Ht, Hd. cbn [Nat.add].
  change (map (fun i => x i) (seq 0 n2)) with (map x (seq 0 n2)).
  by rewrite !IH.
Qed.

(** Past the length of the array the fuel does not matter: the parts of
    an array of more than 128 values are shorter than it by 9 at least. *)
Lemma halved_sum_fuel fuel fuel' (x : nat -> float) n :
  (n <= fuel + 128)%nat -> (n <= fuel' + 128)%nat ->
  halved_sum fuel x n = halved_sum fuel' x n.
Proof.
  revert fuel' x n. induction fuel as [|fuel IH]; intros fuel' x n Hf Hf';
    destruct fuel' as [|fuel']; cbn [halved_sum];
    destruct (n <? 8)%nat eqn:H8; try done;
    destruct (n <=? 128)%nat eqn:H128; try done;
    apply Nat.leb_gt in H128; try lia.
  pose proof (Nat.div_mod_eq n 2) as Hdiv.
  pose proof (Nat.mod_upper_bound n 2 ltac:(lia)) as Hmod.
  pose proof (Nat.mod_upper_bound (n / 2) 8 ltac:(lia)) as Hmod8.
  pose proof (Nat.Div0.mod_le (n / 2) 8) as Hle8.
  f_equal; apply IH; lia.
Qed.

Lemma map_nth_seq (l : list float) :
  map (fun i => nth i l 0) (seq 0 (length l)) = l.
Proof.
  induction l as [|v l IH]; [done|].
  cbn [length seq map nth]. f_equal.
  rewrite <- seq_shift, map_map. exact IH.
Qed.

(** On the array itself: a fuel of its length, or any larger one, gives
    the same sum. *)
Lemma pairwise_sum_fuel fuel (l : list float) :
  (length l <= fuel)%nat ->
  pairwise_sum fuel l = pairwise_sum (length l) l.
Proof.
  intros Hf. rewrite <- (map_nth_seq l).
  rewrite length_map, length_seq, !pairwise_sum_positions.
  apply halved_sum_fuel; lia.
Qed.

(** The two parts of a long sum. *)
Lemma halved_sum_parts (x : nat -> float) n :
  (128 < n)%nat ->
  let n2 := (n / 2 - (n / 2) mod 8)%nat in
  halved_sum n x n =
  halved_sum n2 x n2 +
  halved_sum (n - n2) (fun i => x (n2 + i)%nat) (n - n2).
Proof.
  intros Hn n2. destruct n as [|n]; [lia|]. cbn [halved_sum].
  destruct (S n <? 8)%nat eqn:H8; [apply Nat.ltb_lt in H8; lia|].
  destruct (S n <=? 128)%nat eqn:H128; [apply Nat.leb_le in H128; lia|].
  fold n2.
  pose proof (Nat.div_mod_eq (S n) 2) as Hdiv.
  pose proof (Nat.mod_upper_bound (S n) 2 ltac:(lia)) as Hmod.
  pose proof (Nat.mod_upper_bound (S n / 2) 8 ltac:(lia)) as Hmod8.
  pose proof (Nat.Div0.mod_le (S n / 2) 8) as Hle8.
  f_equal; apply halved_sum_fuel; unfold n2; lia.
Qed.

(** The rows of a frame laid end to end: the pixel at position [p] is in
    row [p / w] and column [p mod w]. *)
Lemma concat_tabulate h w (f : nat -> nat -> float) :
  concat (tabulate h w f) =
  map (fun p => f (p / w)%nat (p mod w)%nat) (seq 0 (h * w)).
Proof.
  unfold tabulate. destruct w as [|w].
  { rewrite Nat.mul_0_r. cbn [seq map]. induction (seq 0 h); by simpl. }
  induction h as [|h IH]; [done|].
  rewrite (seq_S h 0), map_app, concat_app, IH. cbn [map concat].
  rewrite app_nil_r.
  replace (S h * S w)%nat with (h * S w + S w)%nat by lia.
  rewrite seq_app, map_app. f_equal. cbn [Nat.add].
  rewrite (map_seq_shift _ (h * S w)).
  apply map_ext_in. intros j Hj%in_seq.
  rewrite <- (Nat.div_unique (h * S w + j) (S w) h j) by lia.
  by rewrite <- (Nat.mod_unique (h * S w + j) (S w) h j) by lia.
Qed.

(** [np.sum] of a frame, pixel by pixel. *)
Lemma np_sum_pixels h w (f : nat -> nat -> float) :
  np_sum (concat (tabulate h w f)) = pixel_sum h w f.
Proof.
  unfold np_sum, pixel_sum. rewrite concat_tabulate.
  by rewrite length_map, length_seq, pairwise_sum_positions.
Qed.

Lemma pixel_sum_ext h w f g :
  (forall i j, i < h -> j < w -> f i j = g i j) ->
  pixel_sum h w f = pixel_sum h w g.
Proof.
  intros H. rewrite <- !np_sum_pixels. do 2 f_equal.
  unfold tabulate. apply map_ext_in. intros i Hi%in_seq.
  apply map_ext_in. intros j Hj%in_seq. apply H; lia.
Qed.

End Sums.

(** ** Photometry of one aperture *)

Section Photometry.

(** On a mask of weights 0 and 1 the squared weight is the weight, and the
    error the specification words is the error computed. *)
Lemma spec_flux_error_binary h w e ap :
  (forall i j, pixel ap i j = 0 \/ pixel ap i j = 1) ->
  spec_flux_error h w e ap =
  sqrt (pixel_sum h w (fun i j => (pixel e i j * pixel e i j) * pixel ap i j)).
Proof.
  intros Hbin. unfold spec_flux_error. f_equal.
  apply pixel_sum_ext. intros i j _ _. by destruct (Hbin i j) as [->| ->].
Qed.

Lemma cadence_photometry_shape h w tpf tpf_err ap cad f e :
  has_shape h w ap -> has_shape h w f -> has_shape h w e ->
  tpf !! cad = Some f -> tpf_err !! cad = Some e ->
  cadence_photometry tpf tpf_err ap cad =
  Ok (pixel_sum h w (fun i j => pixel f i j * pixel ap i j),
      sqrt (pixel_sum h w (fun i j =>
              (pixel e i j * pixel e i j) * pixel ap i j))).
Proof.
  intros Hap Hf He Hcf Hce. unfold cadence_photometry, index.
  rewrite Hce, Hcf. simpl.
  rewrite (np_square2_pixels h w e He).
  rewrite (np_mul2_same_shape h w _ ap (tabulate_shape _ _ _) Hap). simpl.
  rewrite (np_mul2_same_shape h w f ap Hf Hap). simpl.
  unfold np_sum2. rewrite !np_sum_pixels. do 3 f_equal.
  apply pixel_sum_ext. intros i j Hi Hj. by rewrite pixel_tabulate.
Qed.

Lemma photometry_shape h w tpf tpf_err ap :
  Forall (has_shape h w) tpf -> Forall (has_shape h w) tpf_err ->
  has_shape h w ap -> length tpf <= length tpf_err ->
  exists row,
    photometry tpf tpf_err ap = Ok (row.*1, row.*2) /\
    Forall2 (fun cad r => cadence_photometry tpf tpf_err ap cad = Ok r)
            (seq 0 (length tpf)) row.
Proof.
  intros Htpf Herr Hap Hlen. unfold photometry.
  set (g := fun cad =>
    (pixel_sum h w (fun i j => pixel (tpf !!! cad) i j * pixel ap i j),
     sqrt (pixel_sum h w (fun i j =>
       (pixel (tpf_err !!! cad) i j * pixel (tpf_err !!! cad) i j)
       * pixel ap i j)))).
  assert (Forall (fun cad => cadence_photometry tpf tpf_err ap cad = Ok (g cad))
                 (seq 0 (length tpf))) as Hall.
  { apply Forall_forall. intros cad Hcad%list_elem_of_In%in_seq.
    destruct (lookup_lt_is_Some_2 tpf cad) as [f Hf]; [lia|].
    destruct (lookup_lt_is_Some_2 tpf_err cad) as [e He]; [lia|].
    rewrite (cadence_photometry_shape h w _ _ _ _ f e); try done.
    - unfold g. by rewrite (list_lookup_total_correct _ _ _ Hf),
        (list_lookup_total_correct _ _ _ He).
    - by apply (Forall_lookup_1 _ _ _ _ Htpf Hf).
    - by apply (Forall_lookup_1 _ _ _ _ Herr He). }
  exists (map g (seq 0 (length tpf))). rewrite (mapR_total _ g _ Hall). simpl.
  split; [done|]. by apply mapR_Ok_Forall2, mapR_total.
Qed.

(** C1 (as amended): for frames, error frames and a mask of one shape, the
    photometry of the mask returns one flux and one error per cadence; the
    flux of cadence [t] is the sum over the pixels of the frame times the
    weight, and the error is the root of the sum over the pixels of the
    squared error times the weight (the weight is not squared). The sums
    are binary64 sums in numpy's order, which [pixel_sum] spells out on the
    positions of the pixels. *)
Theorem photometry_per_cadence h w tpf tpf_err ap :
  Forall (has_shape h w) tpf -> Forall (has_shape h w) tpf_err ->
  has_shape h w ap -> length tpf_err = length tpf ->
  exists flux flux_error,
    photometry tpf tpf_err ap = Ok (flux, flux_error) /\
    length flux = length tpf /\ length flux_error = length tpf /\
    forall t f e, tpf !! t = Some f -> tpf_err !! t = Some e ->
      flux !! t = Some (pixel_sum h w (fun i j => pixel f i j * pixel ap i j)) /\
      flux_error !! t =
        Some (sqrt (pixel_sum h w (fun i j =>
                (pixel e i j * pixel e i j) * pixel ap i j))).
Proof.
  intros Htpf Herr Hap Hlen.
  destruct (photometry_shape h w tpf tpf_err ap) as (row & Hrow & Hall);
    [done|done|done|lia|].
  exists (row.*1), (row.*2). split; [done|].
  pose proof (Forall2_length _ _ _ Hall) as Hl. rewrite length_seq in Hl.
  rewrite !length_fmap. split; [done|]. split; [done|].
  intros t f e Hf He.
  assert (t < length tpf) as Ht by (by eapply lookup_lt_Some).
  destruct (Forall2_lookup_l _ _ _ t t Hall) as (r & Hr & Hcad).
  { by rewrite lookup_seq_lt. }
  rewrite (cadence_photometry_shape h w _ _ _ _ f e) in Hcad; try done.
  - injection Hcad as <-. rewrite !list_lookup_fmap, Hr. done.
  - by apply (Forall_lookup_1 _ _ _ _ Htpf Hf).
  - by apply (Forall_lookup_1 _ _ _ _ Herr He).
Qed.

End Photometry.

(** C1, witness: two cadences of 3 by 3 pixels under a mask of weights 1,
    1/2 and 0. *)
Lemma photometry_per_cadence_witness :
  exists flux flux_error,
    photometry [[[1; 2; 3]; [4; 5; 6]; [7; 8; 9]];
                [[9; 8; 7]; [6; 5; 4]; [3; 2; 1]]]
               [[[2; 0; 2]; [0; 2; 0]; [2; 0; 2]];
                [[1; 1; 1]; [1; 1; 1]; [1; 1; 1]]]
               [[0; 0.5; 0]; [0.5; 1; 0.5]; [0; 0.5; 0]]
      = Ok (flux, flux_error) /\
    length flux = 2%nat /\ length flux_error = 2%nat /\
    forall t f e,
      [[[1; 2; 3]; [4; 5; 6]; [7; 8; 9]];
       [[9; 8; 7]; [6; 5; 4]; [3; 2; 1]]] !! t = Some f ->
      [[[2; 0; 2]; [0; 2; 0]; [2; 0; 2]];
       [[1; 1; 1]; [1; 1; 1]; [1; 1; 1]]] !! t = Some e ->
      flux !! t =
        Some (pixel_sum 3 3 (fun i j =>
                pixel f i j * pixel [[0; 0.5; 0]; [0.5; 1; 0.5]; [0; 0.5; 0]] i j)) /\
      flux_error !! t =
        Some (sqrt (pixel_sum 3 3 (fun i j =>
                (pixel e i j * pixel e i j) *
                pixel [[0; 0.5; 0]; [0.5; 1; 0.5]; [0; 0.5; 0]] i j))).
Proof.
  apply (photometry_per_cadence 3 3).
  - repeat constructor.
  - repeat constructor.
  - repeat constructor.
  - reflexivity.
Defined.

(** The order of the sum shows on eight pixels: the eight accumulators
    give [(2^54 + 1) + (-2^54 + 1) = 0], where adding from left to right
    gives 1. *)
Example photometry_eight_pixels :
  photometry [[[0x1p+54; 1; -0x1p+54; 1; 0; 0; 0; 0]]]
             [[[0; 0; 0; 0; 0; 0; 0; 0]]] [[1; 1; 1; 1; 1; 1; 1; 1]]
    = Ok ([0], [0]) /\
  fold_left add [0x1p+54; 1; -0x1p+54; 1; 0; 0; 0; 0] 0 = 1.
Proof. split; vm_compute; reflexivity. Qed.

(** C1, counterexample: with the error 2 on one pixel of weight 1/2, the
    error of the cadence is the root of 4 * 1/2, while the squared weight
    would give the root of 4 * 1/4 = 1. *)
Lemma photometry_weight_not_squared :
  photometry [[[1]]] [[[2]]] [[0.5]] = Ok ([0.5], [sqrt 2]) /\
  spec_flux_error 1 1 [[2]] [[0.5]] = 1 /\
  (sqrt 2 =? 1) = false.
Proof. repeat split; vm_compute; reflexivity. Qed.

(** ** The best aperture *)

Section Selection.

Lemma minimum_cases x y :
  ordered x -> ordered y ->
  (minimum x y = x /\ (x <=? y) = true) \/
  (minimum x y = y /\ (y <=? x) = true).
Proof.
  intros Hx Hy. unfold minimum.
  destruct (leb_total x y Hx Hy) as [H|H].
  - left. by rewrite H.
  - destruct (x <=? y) eqn:E; [by left|]. right.
    unfold ordered in Hx. rewrite Hx. simpl. split; [done|]. by apply ltb_leb.
Qed.

(** [np.min] of ordered values is one of them and is below all of them. *)
Lemma fold_minimum_ordered l x :
  ordered x -> Forall ordered l ->
  let m := fold_left minimum l x in
  m ∈ x :: l /\ (m <=? x) = true /\ Forall (fun v => (m <=? v) = true) l.
Proof.
  revert x. induction l as [|y l IH]; intros x Hx Hl; simpl.
  - split; [by left|]. split; [by apply leb_refl|constructor].
  - apply Forall_cons in Hl as [Hy Hl].
    destruct (minimum_cases x y Hx Hy) as [[-> Hxy]|[-> Hyx]].
    + destruct (IH x Hx Hl) as (Hin & Hmx & Hall). split; [|split; [done|]].
      * apply elem_of_cons in Hin as [->|Hin]; [by left|by do 2 right].
      * constructor; [|done]. by eapply leb_trans.
    + destruct (IH y Hy Hl) as (Hin & Hmy & Hall). split; [|split].
      * by right.
      * by eapply leb_trans.
      * by constructor.
Qed.

(** [np.min] is [nan] as soon as one value is. *)
Lemma fold_minimum_nan l x :
  is_nan x = true \/ Exists (fun v => is_nan v = true) l ->
  is_nan (fold_left minimum l x) = true.
Proof.
  revert x. induction l as [|y l IH]; intros x [Hx|Hl]; simpl.
  - done.
  - by inversion Hl.
  - apply IH. left. unfold minimum. by rewrite Hx, orb_true_r.
  - apply IH. apply Exists_cons in Hl as [Hy|Hl]; [|by right]. left.
    unfold minimum. destruct (is_nan x) eqn:Hx; [by rewrite orb_true_r|].
    destruct (compare_unordered x y) as (_ & _ & ->); [|done].
    unfold ordered. intros [_ ?]. congruence.
Qed.

Lemma where_from_nil i b :
  Forall (fun v => v = false) b -> where_from i b = [].
Proof.
  revert i. induction b as [|v b IH]; intros i Hb; [done|].
  apply Forall_cons in Hb as [-> Hb]. simpl. by apply IH.
Qed.

(** The first index that [np.where] returns is the first place that holds. *)
Lemma where_from_first i b k :
  b !! k = Some true -> (forall j, (j < k)%nat -> b !! j = Some false) ->
  where_from i b !! O = Some (i + k)%nat.
Proof.
  revert i k. induction b as [|v b IH]; intros i k Hk Hlt; [done|].
  destruct k as [|k].
  - simpl in Hk. injection Hk as ->. simpl. f_equal. lia.
  - specialize (Hlt O ltac:(lia)) as H0. simpl in H0. injection H0 as ->.
    simpl. rewrite (IH (S i) k); [f_equal; lia|done|].
    intros j Hj. apply (Hlt (S j)). lia.
Qed.

(** Some place holds: there is a first one. *)
Lemma first_true (b : list bool) k :
  b !! k = Some true ->
  exists k0, b !! k0 = Some true /\ forall j, (j < k0)%nat -> b !! j = Some false.
Proof.
  revert k. induction b as [|v b IH]; intros k Hk; [done|].
  destruct v.
  - exists O. split; [done|]. intros j Hj. lia.
  - destruct k as [|k]; [done|]. destruct (IH k Hk) as (k0 & Hk0 & Hlt).
    exists (S k0). split; [done|]. intros [|j] Hj; [done|]. apply Hlt. lia.
Qed.

(** Line 182 on ordered scores: the index returned holds a score that is
    below every score and strictly below every earlier one. *)
Lemma best_ind_ordered stds :
  stds <> [] -> Forall ordered stds ->
  exists b sb, best_ind stds = Ok b /\ stds !! b = Some sb /\
    (forall j v, stds !! j = Some v -> (sb <=? v) = true) /\
    (forall j v, (j < b)%nat -> stds !! j = Some v -> (sb <? v) = true).
Proof.
  intros Hne Hord. destruct stds as [|x l]; [done|]. clear Hne.
  apply Forall_cons in Hord as [Hx Hl]. unfold best_ind. simpl np_min.
  destruct (fold_minimum_ordered l x Hx Hl) as (Hin & Hmx & Hall).
  set (m := fold_left minimum l x) in *. cbv beta iota delta [bindR].
  assert (Forall (fun v => (m <=? v) = true) (x :: l)) as Hle by (by constructor).
  assert (ordered m) as Hm by (by destruct (leb_ordered _ _ Hmx)).
  apply list_elem_of_lookup in Hin as [k Hk].
  set (b := map (fun v => v =? m) (x :: l)).
  assert (b !! k = Some true) as Hbk.
  { unfold b. rewrite map_fmap, list_lookup_fmap, Hk. simpl.
    by rewrite eqb_refl. }
  destruct (first_true b k Hbk) as (k0 & Hk0 & Hlt).
  unfold index, np_where. rewrite (where_from_first O b k0 Hk0 Hlt). simpl.
  unfold b in Hk0. rewrite map_fmap, list_lookup_fmap in Hk0.
  destruct ((x :: l) !! k0) as [sb|] eqn:Hsb; [|done]. simpl in Hk0.
  injection Hk0 as Hk0. exists k0, sb. split; [done|]. split; [done|]. split.
  - intros j v Hv. eapply eqb_leb_l; [done|].
    by apply (Forall_lookup_1 _ _ _ _ Hle Hv).
  - intros j v Hj Hv. eapply leb_neq_ltb; [done| |].
    + by apply (Forall_lookup_1 _ _ _ _ Hle Hv).
    + specialize (Hlt j Hj). unfold b in Hlt.
      rewrite map_fmap, list_lookup_fmap, Hv in Hlt. simpl in Hlt. congruence.
Qed.

(** Line 182 when a score is [nan]: the list of matches is empty. *)
Lemma best_ind_nan stds :
  Exists (fun v => is_nan v = true) stds -> best_ind stds = Raise IndexError.
Proof.
  intros Hnan. destruct stds as [|x l]; [by inversion Hnan|].
  unfold best_ind. simpl np_min. cbv beta iota delta [bindR].
  assert (is_nan (fold_left minimum l x) = true) as Hm.
  { apply fold_minimum_nan. apply Exists_cons in Hnan. tauto. }
  set (m := fold_left minimum l x) in *.
  unfold index, np_where. rewrite where_from_nil; [done|].
  apply Forall_forall. intros v Hv. apply list_elem_of_In, in_map_iff in Hv as (y & <- & _).
  destruct (compare_unordered y m) as (-> & _); [|done].
  unfold ordered. intros [_ ?]. congruence.
Qed.

End Selection.

Section Best.

Lemma get_lightcurve_scores s aps rows :
  all_apertures s = Val aps ->
  mapR (photometry (tpf s) (tpf_err s)) aps = Ok rows ->
  get_lightcurve false s =
  match best_ind (map score rows) with
  | Raise e => (after_photometry rows s, Raise e)
  | Ok b =>
      match index rows.*1 b, index aps b, index rows.*2 b with
      | Ok l, Ok ap, Ok le =>
          (set_lc_err (Val le)
             (set_aperture (Val ap) (set_lc (Val l) (after_photometry rows s))),
           Ok tt)
      | Raise e, _, _ => (after_photometry rows s, Raise e)
      | Ok l, Raise e, _ => (set_lc (Val l) (after_photometry rows s), Raise e)
      | Ok l, Ok ap, Raise e =>
          (set_aperture (Val ap) (set_lc (Val l) (after_photometry rows s)),
           Raise e)
      end
  end.
Proof.
  intros Haps Hrows. unfold get_lightcurve. simpl negb. cbv iota.
  run_method. rewrite Haps. obj_simpl. rewrite Hrows.
  fold (score). unfold after_photometry.
  change (map (fun row : list float * list float => np_std row.1) rows)
    with (map score rows).
  destruct (best_ind (map score rows)) as [b|e]; [|done].
  destruct (index rows.*1 b) as [l|e]; [|done].
  destruct (index aps b) as [ap|e]; [|done].
  by destruct (index rows.*2 b) as [le|e].
Qed.

(** C2 (as amended): when the photometry of every aperture of a non-empty
    catalog returns and no score is [nan], [get_lightcurve] returns and
    retains an aperture whose score is below the score of every aperture
    and strictly below the score of every aperture that comes earlier in
    the catalog, together with the flux and error series of that aperture.
    The score of an aperture is [np.std] of its flux series, the root of
    the mean squared deviation (divisor [N]). *)
Theorem get_lightcurve_best s aps h w :
  all_apertures s = Val aps -> aps <> [] ->
  Forall (has_shape h w) (tpf s) -> Forall (has_shape h w) (tpf_err s) ->
  Forall (has_shape h w) aps -> length (tpf_err s) = length (tpf s) ->
  (forall ap row, ap ∈ aps -> photometry (tpf s) (tpf_err s) ap = Ok row ->
     is_nan (score row) = false) ->
  exists best ap row s',
    get_lightcurve false s = (s', Ok tt) /\
    aps !! best = Some ap /\
    photometry (tpf s) (tpf_err s) ap = Ok row /\
    lc s' = Val row.1 /\ lc_err s' = Val row.2 /\ aperture s' = Val ap /\
    (forall j ap' row', aps !! j = Some ap' ->
       photometry (tpf s) (tpf_err s) ap' = Ok row' ->
       (score row <=? score row') = true) /\
    (forall j ap' row', (j < best)%nat -> aps !! j = Some ap' ->
       photometry (tpf s) (tpf_err s) ap' = Ok row' ->
       (score row <? score row') = true).
Proof.
  intros Haps Hne Htpf Herr Hshape Hlen Hnan.
  assert (exists rows, mapR (photometry (tpf s) (tpf_err s)) aps = Ok rows)
    as [rows Hrows].
  { assert (Forall (fun ap => exists row,
              photometry (tpf s) (tpf_err s) ap = Ok row) aps) as Hall.
    { eapply Forall_impl; [exact Hshape|]. intros ap Hap.
      destruct (photometry_shape h w _ _ ap Htpf Herr Hap) as (row & Hp & _);
        [lia|]. by eexists. }
    clear -Hall. induction Hall as [|ap aps [row Hrow] _ [rows IH]].
    - by exists [].
    - exists (row :: rows). simpl. by rewrite Hrow, IH. }
  pose proof (proj1 (mapR_Ok_Forall2 _ _ _) Hrows) as Hall.
  pose proof (Forall2_length _ _ _ Hall) as Hlens.
  assert (Forall ordered (map score rows)) as Hord.
  { apply Forall_forall. intros v Hv.
    apply list_elem_of_In, in_map_iff in Hv as (row & <- & Hrow).
    apply list_elem_of_In, list_elem_of_lookup in Hrow as [j Hj].
    destruct (Forall2_lookup_r _ _ _ _ _ Hall Hj) as (ap & Hap & Hp).
    apply (Hnan ap row); [|done]. by eapply list_elem_of_lookup_2. }
  destruct (best_ind_ordered (map score rows)) as (b & sb & Hb & Hsb & Hmin & Hfirst);
    [by destruct rows, aps|done|].
  rewrite map_fmap, list_lookup_fmap in Hsb.
  destruct (rows !! b) as [row|] eqn:Hrow; [|done]. injection Hsb as <-.
  destruct (Forall2_lookup_r _ _ _ _ _ Hall Hrow) as (ap & Hap & Hp).
  eexists b, ap, row, _. split; [|split; [done|split; [done|]]].
  - rewrite (get_lightcurve_scores s aps rows Haps Hrows), Hb.
    unfold index. rewrite !list_lookup_fmap, Hrow, Hap. simpl. reflexivity.
  - split; [done|]. split; [done|]. split; [done|]. split.
    + intros j ap' row' Hj Hp'.
      destruct (Forall2_lookup_l _ _ _ _ _ Hall Hj) as (row'' & Hr & Hp'').
      assert (row'' = row') as -> by congruence.
      apply (Hmin j). by rewrite map_fmap, list_lookup_fmap, Hr.
    + intros j ap' row' Hlt Hj Hp'.
      destruct (Forall2_lookup_l _ _ _ _ _ Hall Hj) as (row'' & Hr & Hp'').
      assert (row'' = row') as -> by congruence.
      apply (Hfirst j); [done|]. by rewrite map_fmap, list_lookup_fmap, Hr.
Qed.

(** C5 (as amended): with a non-empty catalog, when the cutout sequence is
    empty or the score of some aperture is [nan], [get_lightcurve] raises
    [IndexError]; [lc] and [lc_err] are left as they were, and [aperture]
    stays at the [None] assigned on entry. *)
Theorem get_lightcurve_no_valid_aperture s aps :
  all_apertures s = Val aps -> aps <> [] ->
  tpf s = [] \/
  (exists rows, mapR (photometry (tpf s) (tpf_err s)) aps = Ok rows /\
     Exists (fun row => is_nan (score row) = true) rows) ->
  exists s',
    get_lightcurve false s = (s', Raise IndexError) /\
    lc s' = lc s /\ lc_err s' = lc_err s /\ aperture s' = PyNone.
Proof.
  intros Haps Hne Hcase.
  assert (exists rows, mapR (photometry (tpf s) (tpf_err s)) aps = Ok rows /\
     Exists (fun row => is_nan (score row) = true) rows) as (rows & Hrows & Hnan).
  { destruct Hcase as [Hempty|Hcase]; [|done].
    exists (map (fun _ => ([], [])) aps). split.
    - apply mapR_total, Forall_forall. intros ap _.
      unfold photometry. by rewrite Hempty.
    - destruct aps as [|ap aps]; [done|]. by left. }
  exists (after_photometry rows s).
  rewrite (get_lightcurve_scores s aps rows Haps Hrows).
  rewrite best_ind_nan; [done|].
  apply Exists_exists in Hnan as (row & Hin & Hrow).
  apply Exists_exists. exists (score row). split; [|done].
  by apply list_elem_of_In, in_map, list_elem_of_In.
Qed.

End Best.

(** C2, witness: [tied_target], whose frames, error frames and masks are 1
    by 2 and whose scores are 2, 1 and 1. *)
Lemma get_lightcurve_best_witness :
  exists best ap row s',
    get_lightcurve false tied_target = (s', Ok tt) /\
    [[[1; 1]]; [[1; 0]]; [[0; 1]]] !! best = Some ap /\
    photometry (tpf tied_target) (tpf_err tied_target) ap = Ok row /\
    lc s' = Val row.1 /\ lc_err s' = Val row.2 /\ aperture s' = Val ap /\
    (forall j ap' row', [[[1; 1]]; [[1; 0]]; [[0; 1]]] !! j = Some ap' ->
       photometry (tpf tied_target) (tpf_err tied_target) ap' = Ok row' ->
       (score row <=? score row') = true) /\
    (forall j ap' row', (j < best)%nat ->
       [[[1; 1]]; [[1; 0]]; [[0; 1]]] !! j = Some ap' ->
       photometry (tpf tied_target) (tpf_err tied_target) ap' = Ok row' ->
       (score row <? score row') = true).
Proof.
  apply (get_lightcurve_best tied_target [[[1; 1]]; [[1; 0]]; [[0; 1]]] 1 2).
  - reflexivity.
  - discriminate.
  - repeat constructor.
  - repeat constructor.
  - repeat constructor.
  - reflexivity.
  - intros ap row Hin Hrow.
    repeat (apply elem_of_cons in Hin as [->|Hin]);
      [| | |by apply elem_of_nil in Hin];
      vm_compute in Hrow; injection Hrow as <-; vm_compute; reflexivity.
Defined.

(** The scores of [tied_target] are 2, 1 and 1; the aperture retained is
    the first of the two that tie. *)
Example get_lightcurve_tie :
  get_lightcurve false tied_target =
  (set_lc_err (Val [2; 2])
     (set_aperture (Val [[1; 0]])
        (set_lc (Val [1; 3])
           (after_photometry [([2; 6], [sqrt 8; sqrt 8]); ([1; 3], [2; 2]);
                              ([1; 3], [2; 2])] tied_target))),
   Ok tt).
Proof. vm_compute. reflexivity. Qed.

(** C2, counterexample: [huge_target] has a catalog of two apertures and
    two cadences of finite pixels. The flux of the first aperture is
    [infinity] then [neg_infinity] and its score is [nan]; the score of the
    second is [infinity]. [get_lightcurve] raises [IndexError]: no
    candidate is returned, and [lc] is never assigned. Besides, the score
    is not the sample standard deviation: the series 2, 6 scores 2, the
    root of [((2 - 4)^2 + (6 - 4)^2) / 2], and not the root of 8. *)
Lemma finite_pixels_no_candidate :
  match mapR (photometry (tpf huge_target) (tpf_err huge_target))
             [[[1; 1]]; [[1; 0]]] with
  | Ok rows => map (fun row => (row.1, is_nan (score row), score row)) rows
  | Raise _ => []
  end = [([infinity; neg_infinity], true, nan);
         ([0x1p+1023; -0x1p+1023], false, infinity)] /\
  (get_lightcurve false huge_target).2 = Raise IndexError /\
  lc (get_lightcurve false huge_target).1 = Unset /\
  aperture (get_lightcurve false huge_target).1 = PyNone /\
  score ([2; 6], [0; 0]) = 2 /\ (2 =? sqrt 8) = false.
Proof. repeat split; vm_compute; reflexivity. Qed.

(** C5, witness: [empty_target] has no cadence, and the first score of
    [huge_target] is [nan]. *)
Lemma get_lightcurve_no_valid_aperture_witness :
  (exists s',
     get_lightcurve false empty_target = (s', Raise IndexError) /\
     lc s' = lc empty_target /\ lc_err s' = lc_err empty_target /\
     aperture s' = PyNone) /\
  (exists s',
     get_lightcurve false huge_target = (s', Raise IndexError) /\
     lc s' = lc huge_target /\ lc_err s' = lc_err huge_target /\
     aperture s' = PyNone).
Proof.
  split.
  - apply (get_lightcurve_no_valid_aperture empty_target [[[1]]]).
    + reflexivity.
    + discriminate.
    + left. reflexivity.
  - apply (get_lightcurve_no_valid_aperture huge_target [[[1; 1]]; [[1; 0]]]).
    + reflexivity.
    + discriminate.
    + right. eexists. split; [vm_compute; reflexivity|].
      apply Exists_cons_hd. vm_compute. reflexivity.
Defined.

(** C5, counterexample: both scores of [overflow_target] are [infinity],
    so none is finite, and [get_lightcurve] returns, retaining the aperture
    at index 0. *)
Lemma infinite_scores_retain_first :
  match mapR (photometry (tpf overflow_target) (tpf_err overflow_target))
             [[[1]]; [[2]]] with
  | Ok rows => map score rows
  | Raise _ => []
  end = [infinity; infinity] /\
  (get_lightcurve false overflow_target).2 = Ok tt /\
  aperture (get_lightcurve false overflow_target).1 = Val [[1]].
Proof. repeat split; vm_compute; reflexivity. Qed.

(** ** The catalog and the user aperture *)

Section Apertures.
Variable to_image : aperture_shape -> string -> nat * nat -> image.

Lemma r_list_values : np_arange 1.5 4 0.5 = [1.5; 2; 2.5; 3; 3.5].
Proof. vm_compute. reflexivity. Qed.

(** C8: on an object whose cutout sequence has a first frame,
    [create_apertures] returns and leaves a catalog of 20 masks: for each
    radius 1.5, 2, 2.5, 3, 3.5 in turn and each method 'center', 'exact' in
    turn, the circle of that radius and then the rectangle of that length
    and width at angle 0, both centred on (4, 4) and rasterised to the shape
    of the first frame. *)
Theorem create_apertures_catalog s f rest :
  tpf s = f :: rest ->
  exists s' catalog,
    create_apertures to_image s = (s', Ok tt) /\
    all_apertures s' = Val catalog /\
    length catalog = 20%nat /\
    catalog =
      flat_map (fun r =>
        flat_map (fun method =>
          [to_image (CircularAperture (4, 4) r) method (np_shape f);
           to_image (RectangularAperture (4, 4) r r 0) method (np_shape f)])
          ["center"; "exact"])
        [1.5; 2; 2.5; 3; 3.5].
Proof.
  intros Htpf. unfold create_apertures. rewrite r_list_values.
  cbv [forM bindM assignM evalM retM append_aperture first_shape index].
  obj_simpl.
  repeat (rewrite Htpf; cbn [lookup list_lookup bindR]; obj_simpl).
  eexists _, _. split; [reflexivity|]. obj_simpl. split; [reflexivity|].
  split; reflexivity.
Qed.

(** C4 (as amended): called on an object where the name still holds the
    method, with a shape that reads 'circle' in lower case and a radius equal
    to 0.0, or 'rectangle' and a length or width equal to 0.0, or any other
    shape, [custom_aperture] raises nothing: it prints one message, leaves
    the attribute [custom_aperture] at [None] and returns. *)
Theorem custom_aperture_invalid s sh r l w theta pos method :
  custom_aperture_attr s = CustomMethod ->
  (lower sh = "circle" /\ (r =? 0) = true) \/
  (lower sh = "rectangle" /\ ((l =? 0) || (w =? 0)) = true) \/
  (lower sh <> "circle" /\ lower sh <> "rectangle") ->
  exists msg,
    custom_aperture to_image (Some sh) r l w theta pos method s =
    (set_stdout (stdout s ++ [msg]) (set_custom_aperture_attr CustomNone s),
     Ok tt).
Proof.
  intros Hm Hcase. unfold custom_aperture, print. run_method. rewrite Hm.
  destruct Hcase as [[-> Hr]|[[-> Hlw]|[Hc Hr]]].
  - simpl String.eqb. cbv iota. rewrite Hr. by eexists.
  - simpl String.eqb. cbv iota. rewrite Hlw. by eexists.
  - apply String.eqb_neq in Hc, Hr. rewrite Hc, Hr. by eexists.
Qed.

(** C10: on the user-mask branch with a mask assigned, a first frame and a
    first error frame of the shape of the mask, [get_lightcurve] raises
    [NameError] in the first cadence, and [flux], [flux_err] and [aperture]
    stay at the [None] assigned on entry. *)
Theorem get_lightcurve_custom_name_error s m f fs e es h w :
  custom_aperture_attr s = CustomMask m ->
  tpf s = f :: fs -> tpf_err s = e :: es ->
  has_shape h w m -> has_shape h w f -> has_shape h w e ->
  exists s',
    custom_cadence (tpf s) (tpf_err s) (CustomMask m) 0 = Raise NameError /\
    get_lightcurve true s = (s', Raise NameError) /\
    flux s' = PyNone /\ flux_err s' = PyNone /\ aperture s' = PyNone.
Proof.
  intros Hca Htpf Herr Hm Hf He.
  assert (custom_cadence (tpf s) (tpf_err s) (CustomMask m) 0 = Raise NameError)
    as Hcad.
  { unfold custom_cadence, index. rewrite Htpf, Herr. simpl lookup. obj_simpl.
    rewrite (np_mul2_same_shape h w f m Hf Hm). obj_simpl.
    by rewrite (np_mul2_same_shape h w e m He Hm). }
  eexists. split; [done|].
  unfold get_lightcurve. simpl negb. cbv iota. run_method. rewrite Hca.
  obj_simpl.
  replace (length (tpf s)) with (S (length fs)) by (by rewrite Htpf).
  cbn [seq mapR]. rewrite Hcad. obj_simpl. done.
Qed.

End Apertures.

(** C8, witness: one 9 by 9 frame and the centre-rule rasteriser. *)
Lemma create_apertures_catalog_witness :
  exists s' catalog,
    create_apertures center_raster (new_target [blank_frame] [blank_frame])
      = (s', Ok tt) /\
    all_apertures s' = Val catalog /\
    length catalog = 20%nat /\
    catalog =
      flat_map (fun r =>
        flat_map (fun method =>
          [center_raster (CircularAperture (4, 4) r) method (np_shape blank_frame);
           center_raster (RectangularAperture (4, 4) r r 0) method
             (np_shape blank_frame)])
          ["center"; "exact"])
        [1.5; 2; 2.5; 3; 3.5].
Proof.
  apply (create_apertures_catalog center_raster
           (new_target [blank_frame] [blank_frame]) blank_frame []).
  reflexivity.
Defined.

(** C4, witness: the shape 'Circle' with the default radius 0.0. *)
Lemma custom_aperture_invalid_witness :
  exists msg,
    custom_aperture center_raster (Some "Circle") 0 0 0 0 (4, 4) "exact"
      (new_target [blank_frame] [blank_frame]) =
    (set_stdout (stdout (new_target [blank_frame] [blank_frame]) ++ [msg])
       (set_custom_aperture_attr CustomNone
          (new_target [blank_frame] [blank_frame])),
     Ok tt).
Proof.
  apply (custom_aperture_invalid center_raster
           (new_target [blank_frame] [blank_frame]) "Circle" 0 0 0 0 (4, 4)
           "exact").
  - reflexivity.
  - left. split; reflexivity.
Defined.

(** C4, counterexample: a circle of radius 0, a rectangle of width 0 and a
    triangle all return without an exception; each prints a message and
    leaves [custom_aperture] at [None]. *)
Lemma custom_aperture_returns_on_invalid :
  custom_aperture center_raster (Some "circle") 0 0 0 0 (4, 4) "exact"
    (new_target [blank_frame] [blank_frame]) =
  (set_stdout ["Please set a radius (in pixels) for your aperture"]
     (set_custom_aperture_attr CustomNone
        (new_target [blank_frame] [blank_frame])), Ok tt) /\
  (custom_aperture center_raster (Some "rectangle") 0 2 0 0 (4, 4) "exact"
     (new_target [blank_frame] [blank_frame])).2 = Ok tt /\
  custom_aperture center_raster (Some "triangle") 1 1 1 0 (4, 4) "exact"
    (new_target [blank_frame] [blank_frame]) =
  (set_stdout ["Aperture shape not recognized. Please set shape == 'circle' or 'rectangle'"]
     (set_custom_aperture_attr CustomNone
        (new_target [blank_frame] [blank_frame])), Ok tt).
Proof. repeat split; vm_compute; reflexivity. Qed.

(** C10, witness: one cadence of two pixels and a user mask of its shape. *)
Lemma get_lightcurve_custom_name_error_witness :
  exists s',
    custom_cadence [[[1; 2]]] [[[0; 0]]] (CustomMask [[1; 0.5]]) 0
      = Raise NameError /\
    get_lightcurve true
      (set_custom_aperture_attr (CustomMask [[1; 0.5]])
         (new_target [[[1; 2]]] [[[0; 0]]])) = (s', Raise NameError) /\
    flux s' = PyNone /\ flux_err s' = PyNone /\ aperture s' = PyNone.
Proof.
  apply (get_lightcurve_custom_name_error
           (set_custom_aperture_attr (CustomMask [[1; 0.5]])
              (new_target [[[1; 2]]] [[[0; 0]]]))
           [[1; 0.5]] [[1; 2]] [] [[0; 0]] [] 1 2).
  - reflexivity.
  - reflexivity.
  - reflexivity.
  - repeat constructor.
  - repeat constructor.
  - repeat constructor.
Defined.

(** ** The jitter correction *)

Section Jitter.
Variable minimize :
  (params -> result float) -> params -> list (float * float) -> params.
Variables x_pos y_pos lc : list float.
Hypothesis Hx : length x_pos = length lc.
Hypothesis Hy : length y_pos = length lc.

(** A pass in which nothing raises. *)
Definition clean_pass (mask : list bool) (init : params) : round :=
  let inds := np_where (flagged lc mask) in
  let y_err := assign inds infinity (replicate (length lc) 1) in
  let bnds := [(-15, 15); (-15, 15); (-15, 15); (-15, 15); (-15, 15)] in
  let test := minimize (fun p => parabola p x_pos y_pos lc y_err) init bnds in
  {| r_mask := assign inds false mask; r_y_err := y_err;
     r_initGuess := init; r_bnds := bnds; r_test := test;
     r_lc_new := zip_with mul lc (zip_with (spec_factor 2.5 2.5 test) x_pos y_pos) |}.

Fixpoint clean_passes (n : nat) (mask : list bool) (init : params)
    : list round :=
  match n with
  | O => []
  | S n' =>
      let r := clean_pass mask init in
      r :: clean_passes n' (r_mask r) (r_test r)
  end.

Lemma quadratic_same_length p :
  quadratic p x_pos y_pos = Ok (zip_with (spec_factor 2.5 2.5 p) x_pos y_pos).
Proof.
  destruct p as [[[[c1 c2] c3] c4] c5]. unfold quadratic.
  rewrite np_op1_same_length by (by rewrite !length_map).
  cbn [bindR].
  rewrite np_op1_same_length
    by (rewrite length_zip_with, !length_map; lia).
  cbn [bindR].
  rewrite np_op1_same_length
    by (rewrite !length_zip_with, !length_map; lia).
  f_equal. clear Hx Hy. revert y_pos.
  induction x_pos as [|x xs IH]; intros [|y ys]; simpl; [done..|].
  by rewrite IH.
Qed.

(** The objective on arrays of one length: the squared residuals of the
    factor centred on 2.5, summed. *)
Lemma parabola_objective p y_err :
  length y_err = length lc ->
  parabola p x_pos y_pos lc y_err =
  Ok (spec_objective 2.5 2.5 p x_pos y_pos lc y_err).
Proof.
  intros He. unfold parabola, spec_objective.
  rewrite quadratic_same_length. cbn [bindR].
  rewrite np_op1_same_length by (rewrite length_zip_with; lia). cbn [bindR].
  rewrite np_op1_same_length
    by (rewrite length_map, !length_zip_with; lia).
  cbn [bindR]. do 2 f_equal.
  generalize (zip_with mul lc (zip_with (spec_factor 2.5 2.5 p) x_pos y_pos)).
  clear. intros a. revert y_err.
  induction a as [|v a IH]; intros [|e y_err]; simpl; [done..|].
  by rewrite IH.
Qed.

Lemma jitter_round_clean i mask test init :
  (i = O -> init = (3, 3, 3, 3, 3)) -> (i <> O -> test = Some init) ->
  jitter_round minimize x_pos y_pos lc i mask test = Ok (clean_pass mask init).
Proof.
  intros H0 Hi. unfold jitter_round.
  destruct i as [|i];
    [rewrite (H0 eq_refl)|rewrite (Hi ltac:(done))];
    cbn [Nat.eqb bindR]; rewrite quadratic_same_length; cbn [bindR];
    rewrite np_op1_same_length by (rewrite length_zip_with; lia);
    reflexivity.
Qed.

Lemma jitter_loop_clean rng mask init :
  Forall (fun i => i <> O) rng ->
  jitter_loop minimize x_pos y_pos lc rng mask (Some init) =
  Ok (clean_passes (length rng) mask init).
Proof.
  revert mask init. induction rng as [|i rng IH]; intros mask init Hrng; [done|].
  apply Forall_cons in Hrng as [Hi Hrng]. simpl.
  rewrite (jitter_round_clean i mask (Some init) init); [|done|done].
  cbn [bindR]. by rewrite IH.
Qed.

Lemma jitter_rounds_clean :
  jitter_rounds minimize x_pos y_pos lc =
  Ok (clean_passes 5 (replicate (length lc) true) (3, 3, 3, 3, 3)).
Proof.
  unfold jitter_rounds. change (seq 0 5) with (O :: seq 1 4).
  cbn [jitter_loop].
  rewrite (jitter_round_clean O _ None (3, 3, 3, 3, 3)); [|done|done].
  cbn [bindR]. rewrite jitter_loop_clean; [done|].
  by repeat constructor.
Qed.

Lemma clean_passes_length n mask init : length (clean_passes n mask init) = n.
Proof. revert mask init. induction n; intros; simpl; by rewrite ?IHn. Qed.

(** Every pass is a clean pass from the mask and the solution the pass
    before left. *)
Lemma clean_passes_lookup n mask init k r :
  clean_passes n mask init !! k = Some r ->
  match k with
  | O => r = clean_pass mask init
  | S k' => exists r0, clean_passes n mask init !! k' = Some r0 /\
                       r = clean_pass (r_mask r0) (r_test r0)
  end.
Proof.
  revert mask init k r. induction n as [|n IH]; intros mask init k r; [done|].
  destruct k as [|k]; simpl.
  - by intros [= <-].
  - intros Hk. specialize (IH _ _ _ _ Hk). destruct k as [|k].
    + exists (clean_pass mask init). split; [done|]. exact IH.
    + destruct IH as (r0 & Hr0 & ->). by exists r0.
Qed.

Lemma assign_length {A} inds (v : A) a : length (assign inds v a) = length a.
Proof.
  unfold assign. revert a. induction inds as [|i inds IH]; intros a; [done|].
  simpl. by rewrite IH, length_insert.
Qed.

Lemma assign_lookup {A} inds (v : A) a j :
  assign inds v a !! j =
  if decide (j ∈ inds) then (fun _ => v) <$> a !! j else a !! j.
Proof.
  unfold assign. revert a. induction inds as [|i inds IH]; intros a; [done|].
  simpl. rewrite IH. destruct (decide (j = i)) as [->|Hne].
  - destruct (decide (i ∈ i :: inds)) as [_|Hn]; [|exfalso; apply Hn; by left].
    destruct (decide (i < length a)%nat) as [Hlt|Hge].
    + rewrite list_lookup_insert_eq by done.
      destruct (lookup_lt_is_Some_2 a i Hlt) as [x ->]. by case_decide.
    + rewrite list_insert_ge by lia.
      rewrite (lookup_ge_None_2 a i) by lia. by case_decide.
  - rewrite list_lookup_insert_ne by done.
    destruct (decide (j ∈ inds)) as [Hin|Hin];
      destruct (decide (j ∈ i :: inds)) as [Hin'|Hin']; try done.
    + exfalso. apply Hin'. by right.
    + exfalso. by apply elem_of_cons in Hin' as [?|?].
Qed.

Lemma elem_of_where_from i b j :
  j ∈ where_from i b <-> exists k, j = (i + k)%nat /\ b !! k = Some true.
Proof.
  revert i. induction b as [|v b IH]; intros i; simpl.
  - split; [by intros ?%elem_of_nil|by intros (k & _ & ?)].
  - assert (j ∈ where_from (S i) b <->
            exists k, j = (i + S k)%nat /\ b !! k = Some true) as IH'.
    { rewrite IH. split; intros (k & -> & Hk); exists k; (split; [lia|done]). }
    destruct v.
    + rewrite elem_of_cons, IH'. split.
      * intros [->|(k & -> & Hk)]; [exists O|exists (S k)]; (split; [lia|done]).
      * intros ([|k] & -> & Hk); [left; lia|right; by exists k].
    + rewrite IH'. split.
      * intros (k & -> & Hk). by exists (S k).
      * intros ([|k] & -> & Hk); [done|by exists k].
Qed.

Lemma elem_of_np_where b j : j ∈ np_where b <-> b !! j = Some true.
Proof.
  unfold np_where. rewrite elem_of_where_from. split.
  - by intros (k & -> & Hk).
  - intros Hj. by exists j.
Qed.

(** What a pass marks: exactly the flagged cadences get an infinite
    [y_err] and leave the mask; the arrays keep their length. *)
Lemma clean_pass_marks mask init :
  length mask = length lc ->
  let r := clean_pass mask init in
  let thr := np_mean lc - 2.5 * np_std (select lc mask) in
  length (r_mask r) = length lc /\ length (r_y_err r) = length lc /\
  length (r_lc_new r) = length lc /\
  forall j v inc, lc !! j = Some v -> mask !! j = Some inc ->
    r_y_err r !! j = Some (if v <=? thr then infinity else 1) /\
    r_mask r !! j = Some (if v <=? thr then false else inc).
Proof.
  intros Hmask r thr. unfold r, clean_pass. cbn [r_mask r_y_err r_lc_new].
  rewrite !assign_length, length_replicate, !length_zip_with.
  split; [done|]. split; [done|]. split; [lia|].
  intros j v inc Hv Hinc. rewrite !assign_lookup.
  assert (flagged lc mask !! j = Some (v <=? thr)) as Hflag.
  { unfold flagged. by rewrite map_fmap, list_lookup_fmap, Hv. }
  assert (j < length lc)%nat as Hj by (by eapply lookup_lt_Some).
  rewrite lookup_replicate_2 by done. rewrite Hinc.
  destruct (v <=? thr) eqn:E.
  - by rewrite !decide_True by (by apply elem_of_np_where).
  - rewrite !decide_False; [done|..];
      rewrite elem_of_np_where, Hflag; congruence.
Qed.

Lemma clean_passes_y_err_length n mask init k r :
  clean_passes n mask init !! k = Some r -> length (r_y_err r) = length lc.
Proof.
  intros Hk. apply clean_passes_lookup in Hk.
  assert (exists m i, r = clean_pass m i) as (m & i & ->).
  { destruct k as [|k]; [|destruct Hk as (r0 & _ & Hk)]; by eexists _, _. }
  cbn [clean_pass r_y_err]. by rewrite assign_length, length_replicate.
Qed.

Lemma clean_passes_mask_length n mask init k r :
  length mask = length lc -> clean_passes n mask init !! k = Some r ->
  length (r_mask r) = length lc.
Proof.
  revert mask init k. induction n as [|n IH]; intros mask init k Hmask; [done|].
  pose proof (proj1 (clean_pass_marks mask init Hmask)) as Hlen.
  destruct k as [|k]; simpl.
  - by intros [= <-].
  - by apply IH.
Qed.

End Jitter.

(** ** The corrections on the object *)

Section Corrections.
Variable minimize :
  (params -> result float) -> params -> list (float * float) -> params.
Variable sff_correct :
  list nat -> list float -> list float -> list float ->
  nat -> nat -> nat -> list float.

Lemma jitter_corr_clean s x y l :
  centroid_x s = Val x -> centroid_y s = Val y -> lc s = Val l ->
  length x = length l -> length y = length l ->
  exists rs r_last,
    jitter_rounds minimize x y l = Ok rs /\
    rs = clean_passes minimize x y l 5 (replicate (length l) true) (3, 3, 3, 3, 3) /\
    last rs = Some r_last /\
    jitter_corr minimize s = (set_lc (Val (r_lc_new r_last)) s, Ok tt).
Proof.
  intros Hcx Hcy Hlc Hx Hy.
  pose proof (jitter_rounds_clean minimize x y l Hx Hy) as Hrs.
  eexists _, _. split; [exact Hrs|]. split; [reflexivity|]. split.
  { cbn [clean_passes last]. reflexivity. }
  unfold jitter_corr. run_method. rewrite Hcx, Hcy, Hlc. obj_simpl.
  rewrite Hrs. reflexivity.
Qed.

(** C7: on an object with a light curve and centroid arrays of its length,
    [jitter_corr] returns after exactly 5 passes; every pass gives the
    optimizer the bounds (-15, 15) on each of the 5 coefficients; the first
    pass starts it from (3, 3, 3, 3, 3) and every later pass from the
    solution of the pass before. *)
Theorem jitter_corr_rounds s x y l :
  centroid_x s = Val x -> centroid_y s = Val y -> lc s = Val l ->
  length x = length l -> length y = length l ->
  exists rs r_last,
    jitter_rounds minimize x y l = Ok rs /\ length rs = 5%nat /\
    last rs = Some r_last /\
    jitter_corr minimize s = (set_lc (Val (r_lc_new r_last)) s, Ok tt) /\
    (forall k r, rs !! k = Some r ->
       r_bnds r = [(-15, 15); (-15, 15); (-15, 15); (-15, 15); (-15, 15)] /\
       r_test r = minimize (fun p => parabola p x y l (r_y_err r))
                           (r_initGuess r) (r_bnds r)) /\
    (forall r, rs !! O = Some r -> r_initGuess r = (3, 3, 3, 3, 3)) /\
    (forall k r r', rs !! k = Some r -> rs !! S k = Some r' ->
       r_initGuess r' = r_test r).
Proof.
  intros Hcx Hcy Hlc Hx Hy.
  destruct (jitter_corr_clean s x y l Hcx Hcy Hlc Hx Hy)
    as (rs & r_last & Hrs & Heq & Hlast & Hcorr).
  exists rs, r_last. split; [done|]. split.
  { by rewrite Heq, clean_passes_length. }
  split; [done|]. split; [done|]. rewrite Heq. split; [|split].
  - intros k r Hk. apply clean_passes_lookup in Hk.
    destruct k as [|k]; [|destruct Hk as (r0 & _ & Hk)]; by rewrite Hk.
  - intros r Hr. apply clean_passes_lookup in Hr. by rewrite Hr.
  - intros k r r' Hk Hk'. apply clean_passes_lookup in Hk'.
    destruct Hk' as (r0 & Hr0 & ->). rewrite Hk in Hr0. by injection Hr0 as <-.
Qed.

(** C6 (as amended): in every pass of the jitter correction, the standard
    deviation is taken over the cadences that the mask of the pass before
    still includes, and the mean over all cadences; exactly the cadences
    whose flux is at most that mean minus 2.5 times that standard deviation
    get an infinite [y_err] (the others get 1) and leave the mask (the
    others stay as they were); the arrays keep the length of the series. *)
Theorem jitter_rounds_exclusion x y l :
  length x = length l -> length y = length l ->
  exists rs,
    jitter_rounds minimize x y l = Ok rs /\
    forall k r, rs !! k = Some r ->
      let prev := mask_before (length l) rs k in
      let thr := np_mean l - 2.5 * np_std (select l prev) in
      length (r_mask r) = length l /\ length (r_y_err r) = length l /\
      length (r_lc_new r) = length l /\
      forall j v inc, l !! j = Some v -> prev !! j = Some inc ->
        r_y_err r !! j = Some (if v <=? thr then infinity else 1) /\
        r_mask r !! j = Some (if v <=? thr then false else inc).
Proof.
  intros Hx Hy. eexists. split; [by apply jitter_rounds_clean|].
  intros k r Hk prev thr.
  assert (length prev = length l /\
          exists init, r = clean_pass minimize x y l prev init) as [Hprev [init ->]].
  { pose proof (clean_passes_lookup _ _ _ _ _ _ _ _ _ Hk) as Hr.
    destruct k as [|k].
    - split; [apply length_replicate|]. by eexists.
    - destruct Hr as (r0 & Hr0 & ->). unfold prev, mask_before.
      rewrite Hr0. simpl. split; [|by eexists].
      apply (clean_passes_mask_length minimize x y l Hx Hy 5 _ _ k r0
               (length_replicate _ _) Hr0). }
  by apply clean_pass_marks.
Qed.

(** C3 (as amended): in [jitter_corr] the factor of the model is
    [c1 + c2 (x - 2.5) + c3 (x - 2.5)^2 + c4 (y - 2.5) + c5 (y - 2.5)^2]: the
    centring constants are both 2.5, in the objective and in the final
    update alike. The objective that every pass hands to the optimizer is
    the sum over the cadences of the squared residuals
    [(1 - f * factor) / y_err] for that factor, and the flux of every
    cadence is multiplied by the factor for the solution of the last
    pass. *)
Theorem jitter_corr_factor s x y l :
  centroid_x s = Val x -> centroid_y s = Val y -> lc s = Val l ->
  length x = length l -> length y = length l ->
  exists rs r_last l',
    jitter_rounds minimize x y l = Ok rs /\ last rs = Some r_last /\
    jitter_corr minimize s = (set_lc (Val l') s, Ok tt) /\
    length l' = length l /\
    (forall q, quadratic q x y = Ok (zip_with (spec_factor 2.5 2.5 q) x y)) /\
    (forall k r, rs !! k = Some r ->
       r_test r = minimize (fun p => parabola p x y l (r_y_err r))
                           (r_initGuess r) (r_bnds r) /\
       forall p, parabola p x y l (r_y_err r) =
                 Ok (spec_objective 2.5 2.5 p x y l (r_y_err r))) /\
    forall j lj xj yj,
      l !! j = Some lj -> x !! j = Some xj -> y !! j = Some yj ->
      l' !! j = Some (lj * spec_factor 2.5 2.5 (r_test r_last) xj yj).
Proof.
  intros Hcx Hcy Hlc Hx Hy.
  destruct (jitter_corr_clean s x y l Hcx Hcy Hlc Hx Hy)
    as (rs & r_last & Hrs & Heq & Hlast & Hcorr).
  exists rs, r_last, (r_lc_new r_last).
  split; [done|]. split; [done|]. split; [done|].
  assert (exists mask init, r_last = clean_pass minimize x y l mask init)
    as (mask & init & Hr_last).
  { rewrite Heq in Hlast. cbn [clean_passes last] in Hlast.
    injection Hlast as <-. by eexists _, _. }
  split; [|split; [|split]].
  - rewrite Hr_last. cbn [r_lc_new clean_pass].
    rewrite !length_zip_with. lia.
  - intros q. apply (quadratic_same_length x y l Hx Hy).
  - intros k r Hk. rewrite Heq in Hk. split.
    + apply clean_passes_lookup in Hk.
      destruct k as [|k]; [|destruct Hk as (r0 & _ & Hk)]; by rewrite Hk.
    + intros p. apply (parabola_objective x y l Hx Hy).
      by apply (clean_passes_y_err_length minimize x y l _ _ _ _ _ Hk).
  - intros j lj xj yj Hl Hxj Hyj. rewrite Hr_last. cbn [r_lc_new r_test clean_pass].
    by rewrite !lookup_zip_with, Hl, Hxj, Hyj.
Qed.

Lemma system_corr_cases (jitter roll : bool) s :
  system_corr minimize sff_correct jitter roll s =
  match (if jitter then jitter_corr minimize s else (s, Ok tt)) with
  | (s1, Ok _) =>
      if roll then rotation_corr sff_correct s1 else (s1, Ok tt)
  | (s1, Raise e) => (s1, Raise e)
  end.
Proof.
  unfold system_corr, bindM, retM.
  destruct jitter; [destruct (jitter_corr minimize s) as [s1 [[]|e]]|];
    destruct roll; try reflexivity;
    by destruct (rotation_corr sff_correct _) as [s2 [[]|e]].
Qed.

Lemma rotation_corr_run s x y l :
  centroid_x s = Val x -> centroid_y s = Val y -> lc s = Val l ->
  rotation_corr sff_correct s =
  (set_lc (Val (sff_correct (seq 0 (length l)) l x y 1 1 5)) s, Ok tt).
Proof.
  intros Hcx Hcy Hlc. unfold rotation_corr. run_method.
  by rewrite Hlc, Hcx, Hcy.
Qed.

(** C9: on an object with a light curve and centroid arrays of its length,
    [system_corr] does nothing with both flags off, runs [jitter_corr]
    alone or [rotation_corr] alone with one flag on, and with both on runs
    [jitter_corr] first and then [rotation_corr], whose corrector is given
    the light curve that [jitter_corr] left. *)
Theorem system_corr_order s x y l :
  centroid_x s = Val x -> centroid_y s = Val y -> lc s = Val l ->
  length x = length l -> length y = length l ->
  exists l1,
    jitter_corr minimize s = (set_lc (Val l1) s, Ok tt) /\
    system_corr minimize sff_correct false false s = (s, Ok tt) /\
    system_corr minimize sff_correct true false s = (set_lc (Val l1) s, Ok tt) /\
    system_corr minimize sff_correct false true s =
      (set_lc (Val (sff_correct (seq 0 (length l)) l x y 1 1 5)) s, Ok tt) /\
    system_corr minimize sff_correct true true s =
      (set_lc (Val (sff_correct (seq 0 (length l1)) l1 x y 1 1 5)) s, Ok tt).
Proof.
  intros Hcx Hcy Hlc Hx Hy.
  destruct (jitter_corr_clean s x y l Hcx Hcy Hlc Hx Hy)
    as (rs & r_last & _ & _ & _ & Hcorr).
  exists (r_lc_new r_last). split; [done|].
  rewrite !system_corr_cases, Hcorr. split; [done|]. split; [done|]. split.
  - by apply rotation_corr_run.
  - by rewrite (rotation_corr_run _ x y (r_lc_new r_last)).
Qed.

End Corrections.

(** C7, witness: [dip_lc] with a still centroid and the optimizer that
    does not move. *)
Lemma jitter_corr_rounds_witness :
  exists rs r_last,
    jitter_rounds clip_minimize still_xy still_xy dip_lc = Ok rs /\
    length rs = 5%nat /\ last rs = Some r_last /\
    jitter_corr clip_minimize (corr_target dip_lc still_xy still_xy) =
      (set_lc (Val (r_lc_new r_last)) (corr_target dip_lc still_xy still_xy),
       Ok tt) /\
    (forall k r, rs !! k = Some r ->
       r_bnds r = [(-15, 15); (-15, 15); (-15, 15); (-15, 15); (-15, 15)] /\
       r_test r = clip_minimize
                    (fun p => parabola p still_xy still_xy dip_lc (r_y_err r))
                    (r_initGuess r) (r_bnds r)) /\
    (forall r, rs !! O = Some r -> r_initGuess r = (3, 3, 3, 3, 3)) /\
    (forall k r r', rs !! k = Some r -> rs !! S k = Some r' ->
       r_initGuess r' = r_test r).
Proof.
  apply (jitter_corr_rounds clip_minimize
           (corr_target dip_lc still_xy still_xy) still_xy still_xy dip_lc);
    reflexivity.
Defined.

(** C6, witness: [dip_lc] with a still centroid. *)
Lemma jitter_rounds_exclusion_witness :
  exists rs,
    jitter_rounds clip_minimize still_xy still_xy dip_lc = Ok rs /\
    forall k r, rs !! k = Some r ->
      let prev := mask_before (length dip_lc) rs k in
      let thr := np_mean dip_lc - 2.5 * np_std (select dip_lc prev) in
      length (r_mask r) = length dip_lc /\
      length (r_y_err r) = length dip_lc /\
      length (r_lc_new r) = length dip_lc /\
      forall j v inc, dip_lc !! j = Some v -> prev !! j = Some inc ->
        r_y_err r !! j = Some (if v <=? thr then infinity else 1) /\
        r_mask r !! j = Some (if v <=? thr then false else inc).
Proof.
  apply (jitter_rounds_exclusion clip_minimize still_xy still_xy dip_lc);
    reflexivity.
Defined.

(** C6, counterexample: the first pass on [dip_lc] excludes the dip alone.
    In the second pass the cadence at 9.5 is at most the mean of the
    included cadences minus 2.5 times their standard deviation, and yet it
    keeps [y_err = 1] and stays in the mask: the code subtracts from the
    mean of all cadences, the dip included. *)
Lemma second_pass_keeps_cadence :
  match jitter_rounds clip_minimize still_xy still_xy dip_lc with
  | Ok rs =>
      (r_mask <$> rs !! 0%nat,
       (rs !! 1%nat) ≫= (fun r => r_y_err r !! 9%nat),
       (rs !! 1%nat) ≫= (fun r => r_mask r !! 9%nat))
  | Raise _ => (None, None, None)
  end =
  (Some [true; true; true; true; true; true; true; true; true; true; false],
   Some 1, Some true) /\
  (9.5 <=? spec_threshold dip_lc
             [true; true; true; true; true; true; true; true; true; true; false])
  = true.
Proof. split; vm_compute; reflexivity. Qed.

(** C3, witness: two cadences with different centroids. *)
Lemma jitter_corr_factor_witness :
  exists rs r_last l',
    jitter_rounds clip_minimize [4; 5] [4; 3] [1; 2] = Ok rs /\
    last rs = Some r_last /\
    jitter_corr clip_minimize (corr_target [1; 2] [4; 5] [4; 3]) =
      (set_lc (Val l') (corr_target [1; 2] [4; 5] [4; 3]), Ok tt) /\
    length l' = length [1; 2] /\
    (forall q, quadratic q [4; 5] [4; 3] =
               Ok (zip_with (spec_factor 2.5 2.5 q) [4; 5] [4; 3])) /\
    (forall k r, rs !! k = Some r ->
       r_test r = clip_minimize (fun p => parabola p [4; 5] [4; 3] [1; 2] (r_y_err r))
                                (r_initGuess r) (r_bnds r) /\
       forall p, parabola p [4; 5] [4; 3] [1; 2] (r_y_err r) =
                 Ok (spec_objective 2.5 2.5 p [4; 5] [4; 3] [1; 2] (r_y_err r))) /\
    forall j lj xj yj,
      [1; 2] !! j = Some lj -> [4; 5] !! j = Some xj -> [4; 3] !! j = Some yj ->
      l' !! j = Some (lj * spec_factor 2.5 2.5 (r_test r_last) xj yj).
Proof.
  apply (jitter_corr_factor clip_minimize (corr_target [1; 2] [4; 5] [4; 3])
           [4; 5] [4; 3] [1; 2]); reflexivity.
Defined.

(** C3, counterexample: with the centroid at (4, 4) in every cadence and
    the solution (3, 3, 3, 3, 3), a factor centred on 4.0 would be 3; the
    flux 1 is multiplied by 25.5, the factor centred on 2.5, and the
    objective at (3, 3, 3, 3, 3) is (1 - 25.5)^2 and not (1 - 3)^2. *)
Lemma jitter_factor_not_centred_on_4 :
  match jitter_rounds clip_minimize [4] [4] [1] with
  | Ok rs => r_test <$> last rs
  | Raise _ => None
  end = Some (3, 3, 3, 3, 3) /\
  lc (jitter_corr clip_minimize (corr_target [1] [4] [4])).1 = Val [25.5] /\
  1 * spec_factor 4 4 (3, 3, 3, 3, 3) 4 4 = 3 /\
  (25.5 =? 3) = false /\
  parabola (3, 3, 3, 3, 3) [4] [4] [1] [1] = Ok 600.25 /\
  spec_objective 4 4 (3, 3, 3, 3, 3) [4] [4] [1] [1] = 4.
Proof. repeat split; vm_compute; reflexivity. Qed.

(** C9, witness: two cadences, the optimizer that does not move and the
    corrector that divides by the mean. *)
Lemma system_corr_order_witness :
  exists l1,
    jitter_corr clip_minimize (corr_target [1; 2] [4; 5] [4; 3]) =
      (set_lc (Val l1) (corr_target [1; 2] [4; 5] [4; 3]), Ok tt) /\
    system_corr clip_minimize mean_normalise false false
      (corr_target [1; 2] [4; 5] [4; 3]) =
      (corr_target [1; 2] [4; 5] [4; 3], Ok tt) /\
    system_corr clip_minimize mean_normalise true false
      (corr_target [1; 2] [4; 5] [4; 3]) =
      (set_lc (Val l1) (corr_target [1; 2] [4; 5] [4; 3]), Ok tt) /\
    system_corr clip_minimize mean_normalise false true
      (corr_target [1; 2] [4; 5] [4; 3]) =
      (set_lc (Val (mean_normalise (seq 0 (length [1; 2])) [1; 2] [4; 5] [4; 3]
                      1 1 5)) (corr_target [1; 2] [4; 5] [4; 3]), Ok tt) /\
    system_corr clip_minimize mean_normalise true true
      (corr_target [1; 2] [4; 5] [4; 3]) =
      (set_lc (Val (mean_normalise (seq 0 (length l1)) l1 [4; 5] [4; 3] 1 1 5))
         (corr_target [1; 2] [4; 5] [4; 3]), Ok tt).
Proof.
  apply (system_corr_order clip_minimize mean_normalise
           (corr_target [1; 2] [4; 5] [4; 3]) [4; 5] [4; 3] [1; 2]);
    reflexivity.
Defined.

(** ** What a session of calls leaves alone *)

Section CallsFacts.
Variable to_image : aperture_shape -> string -> nat * nat -> image.
Variable minimize :
  (params -> result float) -> params -> list (float * float) -> params.
Variable sff_correct :
  list nat -> list float -> list float -> list float ->
  nat -> nat -> nat -> list float.

Lemma keeps_ret {A} (a : A) : keeps_inputs (retM a).
Proof. by intros s. Qed.

Lemma keeps_eval {A} (f : TargetData -> result A) : keeps_inputs (evalM f).
Proof. by intros s. Qed.

Lemma keeps_assign (f : TargetData -> TargetData) :
  (forall s, inputs (f s) = inputs s) -> keeps_inputs (assignM f).
Proof. intros Hf s. apply Hf. Qed.

Lemma keeps_bind {A B} (m : M A) (k : A -> M B) :
  keeps_inputs m -> (forall a, keeps_inputs (k a)) -> keeps_inputs (bindM m k).
Proof.
  intros Hm Hk s. unfold bindM. specialize (Hm s).
  destruct (m s) as [s' [a|e]]; simpl in *; [|done].
  by rewrite (Hk a s').
Qed.

Lemma keeps_forM {A} (l : list A) (body : A -> M unit) :
  (forall x, keeps_inputs (body x)) -> keeps_inputs (forM l body).
Proof.
  intros Hb. induction l as [|x l IH]; simpl.
  - apply keeps_ret.
  - by apply keeps_bind.
Qed.

Ltac keeps :=
  repeat lazymatch goal with
  | |- keeps_inputs (retM _) => apply keeps_ret
  | |- keeps_inputs (evalM _) => apply keeps_eval
  | |- keeps_inputs (assignM _) => apply keeps_assign; intros ?; reflexivity
  | |- keeps_inputs (forM _ _) => apply keeps_forM; intros ?
  | |- keeps_inputs (bindM _ _) => apply keeps_bind; [|intros ?]
  | |- keeps_inputs (if ?b then _ else _) => destruct b
  | |- keeps_inputs (match ?x with _ => _ end) => destruct x
  | |- keeps_inputs (print _) => unfold print
  | |- keeps_inputs (append_aperture _) => unfold append_aperture
  end.

Lemma keeps_create_apertures : keeps_inputs (create_apertures to_image).
Proof. unfold create_apertures. keeps. Qed.

Lemma keeps_get_lightcurve b : keeps_inputs (get_lightcurve b).
Proof. unfold get_lightcurve. keeps. Qed.

Lemma keeps_custom_aperture shape r l w theta pos method :
  keeps_inputs (custom_aperture to_image shape r l w theta pos method).
Proof. unfold custom_aperture. keeps. Qed.

Lemma keeps_jitter_corr : keeps_inputs (jitter_corr minimize).
Proof. unfold jitter_corr. keeps. Qed.

Lemma keeps_rotation_corr : keeps_inputs (rotation_corr sff_correct).
Proof. unfold rotation_corr. keeps. Qed.

Lemma keeps_system_corr jitter roll :
  keeps_inputs (system_corr minimize sff_correct jitter roll).
Proof.
  unfold system_corr.
  apply keeps_bind; [|intros _]; [destruct jitter|destruct roll];
    auto using keeps_ret, keeps_jitter_corr, keeps_rotation_corr.
Qed.

Lemma keeps_run_call c :
  keeps_inputs (run_call to_image minimize sff_correct c).
Proof.
  destruct c; simpl.
  - apply keeps_create_apertures.
  - apply keeps_get_lightcurve.
  - apply keeps_custom_aperture.
  - apply keeps_jitter_corr.
  - apply keeps_rotation_corr.
  - apply keeps_system_corr.
Qed.

Lemma run_calls_centroid_x cs s :
  centroid_x (run_calls to_image minimize sff_correct cs s) = centroid_x s.
Proof.
  revert s. induction cs as [|c cs IH]; intros s; [done|].
  simpl. rewrite IH. pose proof (keeps_run_call c s) as H.
  unfold inputs in H. congruence.
Qed.

(** X1: no sequence of calls of the methods changes the cutouts or the
    centroid arrays of the object, whatever the outcomes of the calls. *)
Theorem run_calls_keep_inputs cs s :
  inputs (run_calls to_image minimize sff_correct cs s) = inputs s.
Proof.
  revert s. induction cs as [|c cs IH]; intros s; [done|].
  simpl. rewrite IH. apply keeps_run_call.
Qed.

Lemma jitter_corr_unset_centroid s :
  centroid_x s = Unset -> jitter_corr minimize s = (s, Raise AttributeError).
Proof. intros H. unfold jitter_corr. run_method. by rewrite H. Qed.

(** X2: on an object whose [centroid_x] was never assigned, as the
    constructor leaves it, whatever calls of the methods were made since,
    [jitter_corr] raises [AttributeError] and changes nothing, and so does
    [system_corr] with the jitter flag on, without running the roll
    correction. *)
Theorem jitter_corr_needs_centroid cs s roll :
  centroid_x s = Unset ->
  let s' := run_calls to_image minimize sff_correct cs s in
  jitter_corr minimize s' = (s', Raise AttributeError) /\
  system_corr minimize sff_correct true roll s' = (s', Raise AttributeError).
Proof.
  intros Hx s'.
  assert (centroid_x s' = Unset) as Hx'.
  { unfold s'. by rewrite run_calls_centroid_x. }
  split; [by apply jitter_corr_unset_centroid|].
  by rewrite system_corr_cases, jitter_corr_unset_centroid.
Qed.

End CallsFacts.

Section UserAperture.
Variable to_image : aperture_shape -> string -> nat * nat -> image.

Lemma custom_aperture_shadows s shape r l w theta pos method :
  custom_aperture_attr
    (custom_aperture to_image shape r l w theta pos method s).1
  <> CustomMethod.
Proof.
  unfold custom_aperture, print, first_shape. run_method.
  destruct (custom_aperture_attr s) eqn:Hs; obj_simpl; try congruence.
  destruct shape as [sh|]; obj_simpl; [|done].
  destruct (String.eqb (lower sh) "circle").
  - destruct (r =? 0); obj_simpl; [done|].
    destruct (index (tpf s) 0); obj_simpl; done.
  - destruct (String.eqb (lower sh) "rectangle"); obj_simpl; [|done].
    destruct ((l =? 0) || (w =? 0)); obj_simpl; [done|].
    destruct (index (tpf s) 0); obj_simpl; done.
Qed.

(** X3: [custom_aperture] can be called once per object. Its first
    statement assigns the attribute of the same name, so after any call,
    whatever its arguments and outcome, every further call raises
    [TypeError] and changes nothing. *)
Theorem custom_aperture_second_call s shape r l w theta pos method
    shape' r' l' w' theta' pos' method' :
  let s1 := (custom_aperture to_image shape r l w theta pos method s).1 in
  custom_aperture to_image shape' r' l' w' theta' pos' method' s1 =
  (s1, Raise TypeError).
Proof.
  intros s1.
  pose proof (custom_aperture_shadows s shape r l w theta pos method) as H.
  fold s1 in H. unfold custom_aperture. run_method.
  by destruct (custom_aperture_attr s1).
Qed.

Lemma custom_cadence_raises tpf tpf_err ca cad :
  exists e, custom_cadence tpf tpf_err ca cad = Raise e.
Proof.
  unfold custom_cadence.
  destruct (index tpf cad) as [f|e]; [|by eexists]. cbn [bindR].
  destruct (match ca with CustomMask m => np_mul2 f m | _ => Raise TypeError end)
    as [fa|e]; [|by eexists]. cbn [bindR].
  destruct (index tpf_err cad) as [e0|e]; [|by eexists]. cbn [bindR].
  destruct (match ca with CustomMask m => np_mul2 e0 m | _ => Raise TypeError end)
    as [ea|e]; by eexists.
Qed.

Lemma mapR_custom_cadence tpf tpf_err ca l :
  (l = [] /\ mapR (custom_cadence tpf tpf_err ca) l = Ok []) \/
  (l <> [] /\ exists e, mapR (custom_cadence tpf tpf_err ca) l = Raise e).
Proof.
  destruct l as [|cad l]; [by left|]. right. split; [done|].
  destruct (custom_cadence_raises tpf tpf_err ca cad) as [e He].
  exists e. simpl. by rewrite He.
Qed.

(** X4: the user-mask branch of [get_lightcurve] never produces a light
    curve. On every object the call returns only when [custom_aperture] is
    [None] (after printing); otherwise it raises. In every case [flux_err]
    and [aperture] are left at [None], and [flux] too unless the cutout
    sequence is empty, where it is assigned the empty array before the
    exception. *)
Theorem get_lightcurve_custom_never_extracts s :
  let s' := (get_lightcurve true s).1 in
  flux_err s' = PyNone /\ aperture s' = PyNone /\
  (flux s' = PyNone \/ (tpf s = [] /\ flux s' = Val [])) /\
  ((get_lightcurve true s).2 = Ok tt <-> custom_aperture_attr s = CustomNone).
Proof.
  unfold get_lightcurve, print. simpl negb. cbv iota. run_method.
  destruct (custom_aperture_attr s) eqn:Hca; obj_simpl.
  2: { repeat split; try done. by left. }
  all: destruct (mapR_custom_cadence (tpf s) (tpf_err s) (custom_aperture_attr s)
                   (seq 0 (length (tpf s)))) as [[Hnil Hm]|[Hne [e Hm]]];
    rewrite Hca in Hm; rewrite Hm; obj_simpl.
  all: repeat split; try done; try (by left).
  all: right; split; [|done]; by destruct (tpf s).
Qed.

(** X5: with an empty catalog [get_lightcurve] raises [ValueError] (the
    minimum of no score), after assigning [all_lc] and [all_lc_err] the
    empty array; [lc], [lc_err] are not assigned. *)
Theorem get_lightcurve_empty_catalog s :
  all_apertures s = Val [] ->
  exists s',
    get_lightcurve false s = (s', Raise ValueError) /\
    all_lc s' = Val [] /\ all_lc_err s' = Val [] /\
    lc s' = lc s /\ lc_err s' = lc_err s /\ aperture s' = PyNone.
Proof.
  intros H. eexists. split.
  - by rewrite (get_lightcurve_scores s [] [] H).
  - done.
Qed.

(** X6: on an object with no cadence [create_apertures] raises
    [IndexError] at the first mask and leaves the catalog empty; a call of
    [get_lightcurve] after it raises [ValueError]. *)
Theorem create_apertures_no_cadence s :
  tpf s = [] ->
  exists s1 s2,
    create_apertures to_image s = (s1, Raise IndexError) /\
    all_apertures s1 = Val [] /\
    get_lightcurve false s1 = (s2, Raise ValueError).
Proof.
  intros H.
  assert (create_apertures to_image s =
          (set_all_apertures (Val [])
             (set_all_aperture PyNone (set_all_lc PyNone s)),
           Raise IndexError)) as Hc.
  { unfold create_apertures. rewrite r_list_values.
    cbv [forM bindM assignM evalM retM append_aperture first_shape index].
    obj_simpl. by rewrite H. }
  rewrite Hc. eexists _, _. split; [done|]. split; [done|].
  by rewrite (get_lightcurve_scores _ [] []).
Qed.

End UserAperture.

Section JitterEdges.
Variable minimize :
  (params -> result float) -> params -> list (float * float) -> params.
Variable sff_correct :
  list nat -> list float -> list float -> list float ->
  nat -> nat -> nat -> list float.

(** X7: [jitter_corr] is all or nothing: when it raises, the object is as
    before the call, and [system_corr] with the jitter flag on raises the
    same exception without running the roll correction. *)
Theorem jitter_corr_raise_unchanged s s1 e roll :
  jitter_corr minimize s = (s1, Raise e) ->
  s1 = s /\ system_corr minimize sff_correct true roll s = (s, Raise e).
Proof.
  intros H.
  assert (s1 = s) as ->.
  { revert H. unfold jitter_corr. run_method.
    destruct (centroid_x s); obj_simpl; try by intros [= <-].
    destruct (centroid_y s); obj_simpl; try by intros [= <-].
    destruct (lc s); obj_simpl; try by intros [= <-].
    destruct (jitter_rounds _ _ _ _) as [rs|e']; try by intros [= <-].
    destruct (last rs); by intros [= <-]. }
  split; [done|]. by rewrite system_corr_cases, H.
Qed.

Lemma broadcast_mismatch {A B C} (op : A -> B -> result C) a b :
  length a <> length b -> length a <> 1%nat -> length b <> 1%nat ->
  broadcast op a b = Raise ValueError.
Proof.
  intros Hab Ha Hb. unfold broadcast.
  apply Nat.eqb_neq in Hab. rewrite Hab.
  destruct a as [|x [|x' a]]; destruct b as [|y [|y' b]]; simpl in *; done.
Qed.

Lemma quadratic_length p x y q :
  length x = length y -> quadratic p x y = Ok q -> length q = length x.
Proof.
  intros Hxy. rewrite (quadratic_same_length x y y Hxy eq_refl).
  intros [= <-]. rewrite length_zip_with. lia.
Qed.

(** X8: when the two centroid arrays have one length and the light curve
    another, neither of them 1, [jitter_corr] raises [ValueError] (the
    arrays cannot be broadcast) and changes nothing. *)
Theorem jitter_corr_length_mismatch s x y l :
  centroid_x s = Val x -> centroid_y s = Val y -> lc s = Val l ->
  length x = length y -> length l <> length x ->
  length l <> 1%nat -> length x <> 1%nat ->
  jitter_corr minimize s = (s, Raise ValueError).
Proof.
  intros Hcx Hcy Hlc Hxy Hne Hl1 Hx1.
  unfold jitter_corr. run_method. rewrite Hcx, Hcy, Hlc. obj_simpl.
  unfold jitter_rounds. cbn [seq jitter_loop]. unfold jitter_round at 1.
  cbn [Nat.eqb bindR].
  rewrite (quadratic_same_length x y y Hxy eq_refl). cbn [bindR].
  unfold np_op1. rewrite broadcast_mismatch; [done|..];
    rewrite ?length_zip_with; lia.
Qed.

Lemma clean_pass_mask_false x y l mask init j :
  mask !! j = Some false ->
  r_mask (clean_pass minimize x y l mask init) !! j = Some false.
Proof.
  intros Hj. cbn [clean_pass r_mask].
  rewrite (assign_lookup [] [] [] eq_refl eq_refl), Hj. by case_decide.
Qed.

Lemma clean_passes_mask_false x y l n mask init j k r :
  mask !! j = Some false ->
  clean_passes minimize x y l n mask init !! k = Some r ->
  r_mask r !! j = Some false.
Proof.
  revert mask init k. induction n as [|n IH]; intros mask init k Hj; [done|].
  pose proof (clean_pass_mask_false x y l mask init j Hj) as H0.
  destruct k as [|k]; simpl.
  - by intros [= <-].
  - by apply IH.
Qed.

Lemma clean_passes_drop x y l n mask init k r :
  clean_passes minimize x y l n mask init !! k = Some r ->
  drop (S k) (clean_passes minimize x y l n mask init) =
  clean_passes minimize x y l (n - S k) (r_mask r) (r_test r).
Proof.
  revert mask init k. induction n as [|n IH]; intros mask init k; [done|].
  destruct k as [|k]; simpl.
  - intros [= <-]. by rewrite Nat.sub_0_r.
  - apply IH.
Qed.

(** X9: in the jitter correction an excluded cadence is never included
    again: a cadence that the mask of one pass excludes is excluded by the
    mask of every later pass. *)
Theorem jitter_mask_monotone x y l rs k k' r r' j :
  length x = length l -> length y = length l ->
  jitter_rounds minimize x y l = Ok rs ->
  rs !! k = Some r -> rs !! k' = Some r' -> (k < k')%nat ->
  r_mask r !! j = Some false -> r_mask r' !! j = Some false.
Proof.
  intros Hx Hy Hrs Hk Hk' Hlt Hj.
  assert (rs = clean_passes minimize x y l 5 (replicate (length l) true)
                 (3, 3, 3, 3, 3)) as ->.
  { pose proof (jitter_rounds_clean minimize x y l Hx Hy) as Hc. congruence. }
  pose proof (clean_passes_drop _ _ _ _ _ _ _ _ Hk) as Hd.
  assert (drop (S k) (clean_passes minimize x y l 5
            (replicate (length l) true) (3, 3, 3, 3, 3)) !! (k' - S k)%nat
          = Some r') as Hr'.
  { rewrite lookup_drop. by replace (S k + (k' - S k))%nat with k' by lia. }
  rewrite Hd in Hr'.
  by apply (clean_passes_mask_false _ _ _ _ _ _ j _ _ Hj Hr').
Qed.

End JitterEdges.

(** ** What every sum keeps *)

Section SumsOf.

(** A set of values that contains 0 and is closed under addition contains
    the sum of its members. *)
Section Closed.
Variable Z : float -> Prop.
Hypothesis Z_add : forall x y, Z x -> Z y -> Z (x + y).

Lemma fold_add_closed l acc : Z acc -> Forall Z l -> Z (fold_left add l acc).
Proof.
  revert acc. induction l as [|v l IH]; intros acc Ha Hl; [done|].
  apply Forall_cons in Hl as [Hv Hl]. simpl. apply IH; [|done].
  by apply Z_add.
Qed.

Lemma zip_with_add_closed r a :
  Forall Z r -> Forall Z a -> Forall Z (zip_with add r a).
Proof.
  intros Hr. revert a. induction Hr as [|x r Hx Hr IH]; intros a Ha; [done|].
  destruct Ha as [|y a Hy Ha]; [done|]. simpl. constructor; [by apply Z_add|].
  by apply IH.
Qed.

Lemma unrolled_closed b r a :
  Forall Z r -> Forall Z a ->
  Forall Z (unrolled b r a).1 /\ Forall Z (unrolled b r a).2.
Proof.
  revert r a. induction b as [|b IH]; intros r a Hr Ha; [done|].
  cbn [unrolled]. apply IH.
  - apply zip_with_add_closed; [done|]. by apply Forall_take.
  - by apply Forall_drop.
Qed.

Lemma nth_closed r k : Z 0 -> Forall Z r -> Z (nth k r 0).
Proof.
  intros H0 Hr. revert k.
  induction Hr as [|x r Hx Hr IH]; intros [|k]; simpl; done.
Qed.

Lemma pairwise_block_closed a : Z 0 -> Forall Z a -> Z (pairwise_block a).
Proof.
  intros H0 Ha. unfold pairwise_block.
  destruct (unrolled_closed (length a / 8 - 1) (take 8 a) (drop 8 a))
    as [Hr Hrest]; [by apply Forall_take|by apply Forall_drop|].
  destruct (unrolled _ _ _) as [r rest]. cbn [fst snd] in Hr, Hrest.
  apply fold_add_closed; [|done].
  repeat apply Z_add; by apply nth_closed.
Qed.

Lemma pairwise_sum_closed fuel a :
  Z 0 -> Forall Z a -> Z (pairwise_sum fuel a).
Proof.
  intros H0. revert a. induction fuel as [|fuel IH]; intros a Ha;
    cbn [pairwise_sum];
    destruct (length a <? 8)%nat; try (by apply fold_add_closed);
    destruct (length a <=? 128)%nat; try (by apply pairwise_block_closed);
    try done.
  apply Z_add; apply IH; [by apply Forall_take|by apply Forall_drop].
Qed.

Lemma np_sum_closed l : Z 0 -> Forall Z l -> Z (np_sum l).
Proof.
  intros H0 Hl. unfold np_sum. apply Z_add; [done|].
  by apply pairwise_sum_closed.
Qed.

End Closed.

(** A property that a sum of two values has as soon as one of them has it
    passes from any value to the sum of all. *)
Section Contagious.
Variable C : float -> Prop.
Hypothesis C_add_l : forall x y, C x -> C (x + y).
Hypothesis C_add_r : forall x y, C y -> C (x + y).

Lemma fold_add_contagious l acc :
  C acc \/ Exists C l -> C (fold_left add l acc).
Proof.
  revert acc. induction l as [|v l IH]; intros acc [Ha|Hl]; simpl.
  - done.
  - by inversion Hl.
  - apply IH. left. by apply C_add_l.
  - apply IH. apply Exists_cons in Hl as [Hv|Hl]; [|by right].
    left. by apply C_add_r.
Qed.

Lemma zip_with_add_contagious r a :
  length r = length a -> Exists C r \/ Exists C a ->
  Exists C (zip_with add r a).
Proof.
  revert a. induction r as [|x r IH]; intros [|y a] Hlen H; simplify_eq/=.
  - destruct H as [H|H]; by inversion H.
  - rewrite !Exists_cons in H. rewrite Exists_cons.
    destruct H as [[Hx|Hr]|[Hy|Ha]].
    + left. by apply C_add_l.
    + right. apply IH; [done|by left].
    + left. by apply C_add_r.
    + right. apply IH; [done|by right].
Qed.

Lemma Exists_take_drop {A} (P : A -> Prop) k (a : list A) :
  Exists P a -> Exists P (take k a) \/ Exists P (drop k a).
Proof. rewrite <- (take_drop k a) at 1. apply Exists_app. Qed.

Lemma unrolled_contagious b r a :
  length r = 8%nat -> (8 * b <= length a)%nat ->
  Exists C r \/ Exists C a ->
  length (unrolled b r a).1 = 8%nat /\
  (Exists C (unrolled b r a).1 \/ Exists C (unrolled b r a).2).
Proof.
  revert r a. induction b as [|b IH]; intros r a Hr Ha H; [done|].
  cbn [unrolled].
  assert (length (take 8 a) = 8%nat) as Ht by (rewrite length_take; lia).
  apply IH.
  - rewrite length_zip_with. lia.
  - rewrite length_drop. lia.
  - destruct H as [H|H].
    + left. apply zip_with_add_contagious; [lia|by left].
    + destruct (Exists_take_drop C 8 a H) as [H'|H']; [|by right].
      left. apply zip_with_add_contagious; [lia|by right].
Qed.

Lemma pairwise_block_contagious a :
  (8 <= length a)%nat -> Exists C a -> C (pairwise_block a).
Proof.
  intros Hn Ha. unfold pairwise_block.
  pose proof (Nat.div_mod_eq (length a) 8) as Hdiv.
  assert (1 <= length a / 8)%nat as Hq
    by (apply Nat.div_le_lower_bound; lia).
  destruct (unrolled_contagious (length a / 8 - 1) (take 8 a) (drop 8 a))
    as [Hlen H].
  { rewrite length_take. lia. }
  { rewrite length_drop. lia. }
  { by apply Exists_take_drop. }
  destruct (unrolled _ _ _) as [r rest]. cbn [fst snd] in Hlen, H.
  apply fold_add_contagious. destruct H as [H|H]; [left|by right].
  destruct r as [|r0 [|r1 [|r2 [|r3 [|r4 [|r5 [|r6 [|r7 [|]]]]]]]]];
    try discriminate.
  cbn [nth]. rewrite !Exists_cons in H.
  destruct H as [H|[H|[H|[H|[H|[H|[H|[H|H]]]]]]]];
    [| | | | | | | |by inversion H];
    auto 6 using C_add_l, C_add_r.
Qed.

Lemma pairwise_sum_contagious fuel a :
  (length a <= fuel + 128)%nat -> Exists C a -> C (pairwise_sum fuel a).
Proof.
  revert a. induction fuel as [|fuel IH]; intros a Hf Ha;
    cbn [pairwise_sum];
    destruct (length a <? 8)%nat eqn:H8;
    try (apply fold_add_contagious; by right);
    apply Nat.ltb_ge in H8;
    destruct (length a <=? 128)%nat eqn:H128;
    try (by apply pairwise_block_contagious);
    apply Nat.leb_gt in H128; [lia|].
  pose proof (Nat.div_mod_eq (length a) 2) as Hdiv.
  pose proof (Nat.mod_upper_bound (length a) 2 ltac:(lia)) as Hmod.
  pose proof (Nat.mod_upper_bound (length a / 2) 8 ltac:(lia)) as Hmod8.
  pose proof (Nat.Div0.mod_le (length a / 2) 8) as Hle8.
  destruct (Exists_take_drop C
              (length a / 2 - (length a / 2) mod 8) a Ha) as [H|H].
  - apply C_add_l, IH; [rewrite length_take; lia|done].
  - apply C_add_r, IH; [rewrite length_drop; lia|done].
Qed.

Lemma np_sum_contagious l : Exists C l -> C (np_sum l).
Proof.
  intros Hl. unfold np_sum. apply C_add_r.
  apply pairwise_sum_contagious; [lia|done].
Qed.

End Contagious.

End SumsOf.

Section NanZero.

Lemma is_nan_spec x : is_nan x = true <-> Prim2SF x = S754_nan.
Proof.
  pose proof (ordered_spec x) as H. unfold ordered in H.
  destruct (is_nan x); split; try done.
  - intros _. destruct (Prim2SF x); try done;
      exfalso; by assert (true = false) by (by apply H).
  - intros E. by apply H in E.
Qed.

Lemma mul_nan_l x y : is_nan x = true -> is_nan (x * y) = true.
Proof. rewrite !is_nan_spec, mul_spec. by intros ->. Qed.

Lemma add_nan_l x y : is_nan x = true -> is_nan (x + y) = true.
Proof. rewrite !is_nan_spec, add_spec. by intros ->. Qed.

Lemma add_nan_r x y : is_nan y = true -> is_nan (x + y) = true.
Proof.
  rewrite !is_nan_spec, add_spec. intros ->. by destruct (Prim2SF x).
Qed.

Lemma sub_nan_r x y : is_nan y = true -> is_nan (x - y) = true.
Proof.
  rewrite !is_nan_spec, sub_spec. intros ->. by destruct (Prim2SF x).
Qed.

Lemma div_nan_l x y : is_nan x = true -> is_nan (x / y) = true.
Proof. rewrite !is_nan_spec, div_spec. by intros ->. Qed.

Lemma sqrt_nan x : is_nan x = true -> is_nan (sqrt x) = true.
Proof. rewrite !is_nan_spec, sqrt_spec. by intros ->. Qed.

Lemma np_sum_nan l :
  Exists (fun v => is_nan v = true) l -> is_nan (np_sum l) = true.
Proof.
  apply (np_sum_contagious (fun v => is_nan v = true)).
  - intros x y. apply add_nan_l.
  - intros x y. apply add_nan_r.
Qed.

(** The standard deviation of a series with a [nan] value is [nan]. *)
Lemma np_std_nan l :
  Exists (fun v => is_nan v = true) l -> is_nan (np_std l) = true.
Proof.
  intros H. unfold np_std. apply sqrt_nan, div_nan_l, np_sum_nan.
  pose proof H as H'. apply Exists_exists in H' as (v & Hv & _).
  apply Exists_exists. eexists. split.
  - apply list_elem_of_In, in_map, in_map, list_elem_of_In, Hv.
  - by apply mul_nan_l, sub_nan_r, div_nan_l, np_sum_nan.
Qed.

Lemma tabulate_elem h w f i j :
  (i < h)%nat -> (j < w)%nat -> f i j ∈ concat (tabulate h w f).
Proof.
  intros Hi Hj. apply list_elem_of_In, in_concat.
  exists (map (f i) (seq 0 w)). split.
  - unfold tabulate. apply (in_map (fun i => map (f i) (seq 0 w))), in_seq. lia.
  - apply in_map, in_seq. lia.
Qed.

Lemma pixel_sum_nan h w f i j :
  (i < h)%nat -> (j < w)%nat -> is_nan (f i j) = true ->
  is_nan (pixel_sum h w f) = true.
Proof.
  intros Hi Hj Hnan. rewrite <- np_sum_pixels. apply np_sum_nan, Exists_exists.
  exists (f i j). split; [by apply tabulate_elem|done].
Qed.

Lemma mul_zero x y :
  (is_zero x /\ is_finite y) \/ (is_finite x /\ is_zero y) ->
  is_zero (x * y).
Proof.
  unfold is_zero, is_finite. rewrite mul_spec.
  intros [[[s ->] Hy]|[Hx [s ->]]].
  - destruct (Prim2SF y); try done; by eexists.
  - destruct (Prim2SF x); try done; by eexists.
Qed.

Lemma add_zero x y : is_zero x -> is_zero y -> is_zero (x + y).
Proof.
  unfold is_zero. rewrite add_spec. intros [sx ->] [sy ->].
  destruct sx, sy; by eexists.
Qed.

Lemma is_zero_eqb x : is_zero x -> (x =? 0) = true.
Proof. intros [s Hs]. rewrite FloatAxioms.eqb_spec, Hs. by destruct s. Qed.

Lemma pixel_sum_zero h w f :
  (forall i j, (i < h)%nat -> (j < w)%nat -> is_zero (f i j)) ->
  is_zero (pixel_sum h w f).
Proof.
  intros H. rewrite <- np_sum_pixels.
  apply (np_sum_closed is_zero add_zero); [by exists false|].
  apply Forall_forall. intros v Hv.
  apply list_elem_of_In, in_concat in Hv as (row & Hrow & Hv).
  unfold tabulate in Hrow. apply in_map_iff in Hrow as (i & <- & Hi%in_seq).
  apply in_map_iff in Hv as (j & <- & Hj%in_seq). apply H; lia.
Qed.

End NanZero.

Section Poison.

(** X10: one [nan] pixel anywhere in the cutout defeats the selection.
    With a non-empty catalog and frames, error frames and masks of one
    shape, a [nan] value in some frame makes [get_lightcurve] raise
    [IndexError], whatever the weights: the [nan] enters the flux of every
    aperture, a weight of 0 included. *)
Theorem get_lightcurve_nan_pixel s aps h w t f i j :
  all_apertures s = Val aps -> aps <> [] ->
  Forall (has_shape h w) (tpf s) -> Forall (has_shape h w) (tpf_err s) ->
  Forall (has_shape h w) aps -> length (tpf_err s) = length (tpf s) ->
  tpf s !! t = Some f -> (i < h)%nat -> (j < w)%nat ->
  is_nan (pixel f i j) = true ->
  exists s',
    get_lightcurve false s = (s', Raise IndexError) /\
    lc s' = lc s /\ aperture s' = PyNone.
Proof.
  intros Haps Hne Htpf Herr Hshape Hlen Hf Hi Hj Hnan.
  assert (forall ap, ap ∈ aps -> exists row,
            photometry (tpf s) (tpf_err s) ap = Ok row /\
            is_nan (score row) = true) as Hrow.
  { intros ap Hap.
    assert (has_shape h w ap) as Hsh by (by eapply Forall_forall in Hshape).
    destruct (photometry_shape h w _ _ ap Htpf Herr Hsh) as (row & Hp & Hall);
      [lia|].
    eexists. split; [exact Hp|]. unfold score. cbn [fst].
    apply np_std_nan, Exists_exists.
    destruct (lookup_lt_is_Some_2 (tpf_err s) t) as [e He].
    { rewrite Hlen. by eapply lookup_lt_Some. }
    destruct (Forall2_lookup_l _ _ _ t t Hall) as (r & Hr & Hcad).
    { apply lookup_seq_lt. by eapply lookup_lt_Some. }
    rewrite (cadence_photometry_shape h w _ _ _ _ f e) in Hcad; try done.
    2: by apply (Forall_lookup_1 _ _ _ _ Htpf Hf).
    2: by apply (Forall_lookup_1 _ _ _ _ Herr He).
    injection Hcad as <-.
    eexists. split.
    - apply list_elem_of_lookup. exists t. by rewrite list_lookup_fmap, Hr.
    - cbn [fst]. apply (pixel_sum_nan h w _ i j Hi Hj). by apply mul_nan_l. }
  assert (exists rows, mapR (photometry (tpf s) (tpf_err s)) aps = Ok rows /\
            Forall (fun row => is_nan (score row) = true) rows)
    as (rows & Hrows & Hall).
  { clear -Hrow. induction aps as [|ap aps IH].
    - by exists [].
    - destruct (Hrow ap) as (row & Hp & Hn); [by left|].
      destruct IH as (rows & Hrows & Hall).
      { intros ap' Hap'. apply Hrow. by right. }
      exists (row :: rows). cbn [mapR]. rewrite Hp. cbn [bindR].
      rewrite Hrows. cbn [bindR]. split; [done|by constructor]. }
  exists (after_photometry rows s).
  rewrite (get_lightcurve_scores s aps rows Haps Hrows).
  rewrite best_ind_nan; [done|].
  pose proof (Forall2_length _ _ _ (proj1 (mapR_Ok_Forall2 _ _ _) Hrows)) as Hl.
  destruct rows as [|row rows]; [by destruct aps|].
  apply Forall_cons in Hall as [Hn _]. by left.
Qed.

(** X11: where every pixel is finite and its weight zero, or the pixel
    zero and its weight finite, the flux of every cadence is zero: an
    all-zero mask, or an all-zero cutout under finite weights, gives an
    all-zero light curve. *)
Theorem photometry_zero_flux h w tpf tpf_err ap flux flux_error :
  Forall (has_shape h w) tpf -> Forall (has_shape h w) tpf_err ->
  has_shape h w ap -> length tpf_err = length tpf ->
  (forall f i j, f ∈ tpf -> (i < h)%nat -> (j < w)%nat ->
     (is_zero (pixel f i j) /\ is_finite (pixel ap i j)) \/
     (is_finite (pixel f i j) /\ is_zero (pixel ap i j))) ->
  photometry tpf tpf_err ap = Ok (flux, flux_error) ->
  length flux = length tpf /\ Forall (fun v => (v =? 0) = true) flux.
Proof.
  intros Htpf Herr Hap Hlen Hz Hp.
  destruct (photometry_shape h w tpf tpf_err ap Htpf Herr Hap) as (row & Hp' & Hall);
    [lia|].
  rewrite Hp in Hp'. injection Hp' as -> ->.
  pose proof (Forall2_length _ _ _ Hall) as Hl. rewrite length_seq in Hl.
  split; [by rewrite length_fmap|].
  apply Forall_forall. intros v Hv.
  apply list_elem_of_fmap in Hv as ([v1 v2] & -> & Hr).
  apply list_elem_of_lookup in Hr as [t Hr].
  destruct (Forall2_lookup_r _ _ _ _ _ Hall Hr) as (cad & Hcad & Hc).
  apply lookup_seq in Hcad as [-> Ht]. simpl in Hc.
  destruct (lookup_lt_is_Some_2 tpf t Ht) as [f Hf].
  destruct (lookup_lt_is_Some_2 tpf_err t) as [e He]; [lia|].
  rewrite (cadence_photometry_shape h w _ _ _ _ f e) in Hc; try done.
  2: by apply (Forall_lookup_1 _ _ _ _ Htpf Hf).
  2: by apply (Forall_lookup_1 _ _ _ _ Herr He).
  injection Hc as <- _. cbn [fst]. apply is_zero_eqb, pixel_sum_zero.
  intros i j Hi Hj. apply mul_zero, Hz; [|done..].
  by eapply list_elem_of_lookup_2.
Qed.

End Poison.

Section Slices.

Lemma py_slice_length {A} lo hi (l : list A) :
  (0 <= lo)%Z -> (0 <= hi)%Z -> (lo <= Z.of_nat (length l))%Z ->
  length (py_slice lo hi l) =
  Z.to_nat (Z.min (Z.max hi lo) (Z.of_nat (length l)) - lo).
Proof.
  intros H0 Hh Hn. unfold py_slice.
  rewrite length_take, length_drop.
  destruct (Z.ltb_spec lo 0); [lia|].
  destruct (Z.ltb_spec hi 0); lia.
Qed.

Lemma py_slice_in_bounds {A} lo hi (l : list A) :
  (0 <= lo <= hi)%Z -> (hi <= Z.of_nat (length l))%Z ->
  py_slice lo hi l = take (Z.to_nat (hi - lo)) (drop (Z.to_nat lo) l).
Proof.
  intros H0 Hn. unfold py_slice.
  destruct (Z.ltb_spec lo 0); [lia|].
  destruct (Z.ltb_spec hi 0); [lia|].
  by rewrite !Z.min_l by lia.
Qed.

(** A negative start counts from the end: the slice is empty when the
    sequence is at least as long as the distance between the bounds. *)
Lemma py_slice_wrap {A} lo hi (l : list A) :
  (lo < 0)%Z -> (0 <= hi)%Z -> (hi - lo <= Z.of_nat (length l))%Z ->
  py_slice lo hi l = [].
Proof.
  intros Hlo Hhi Hn. unfold py_slice.
  destruct (Z.ltb_spec lo 0); [|lia].
  destruct (Z.ltb_spec hi 0); [lia|].
  replace (Z.to_nat _) with O by lia. done.
Qed.

Lemma np_shape3_positive n0 n1 n2 a :
  has_shape3 n0 n1 n2 a -> (0 < n0)%nat -> (0 < n1)%nat ->
  np_shape3 a = (n0, n1, n2).
Proof.
  intros [Hl Ha] H0 H1. unfold np_shape3.
  destruct a as [|r a]; [simpl in Hl; lia|].
  apply Forall_cons in Ha as [[Hr Hc] _].
  destruct r as [|c r]; [simpl in Hr; lia|].
  apply Forall_cons in Hc as [Hc _]. simpl in *. congruence.
Qed.

Lemma transpose_201_frames n0 n1 n2 a :
  has_shape3 n0 n1 n2 a -> (0 < n0)%nat -> (0 < n1)%nat ->
  transpose_201 a = map (fun k => tabulate n0 n1 (fun i j => item a i j k))
                        (seq 0 n2).
Proof.
  intros Ha H0 H1. unfold transpose_201.
  by rewrite (np_shape3_positive n0 n1 n2 a Ha H0 H1).
Qed.

Lemma tabulate_rows h w f i :
  tabulate h w f !! i =
  if decide (i < h)%nat then Some (map (f i) (seq 0 w)) else None.
Proof.
  unfold tabulate. rewrite map_fmap, list_lookup_fmap. case_decide.
  - by rewrite lookup_seq_lt.
  - by rewrite lookup_seq_ge by lia.
Qed.

(** A block of a tabulated frame, cut where both slices are in bounds. *)
Lemma slice_tabulate h w f y0 y1 x0 x1 :
  (0 <= y0 <= y1)%Z -> (y1 <= Z.of_nat h)%Z ->
  (0 <= x0 <= x1)%Z -> (x1 <= Z.of_nat w)%Z ->
  map (py_slice x0 x1) (py_slice y0 y1 (tabulate h w f)) =
  tabulate (Z.to_nat (y1 - y0)) (Z.to_nat (x1 - x0))
    (fun i j => f (Z.to_nat y0 + i)%nat (Z.to_nat x0 + j)%nat).
Proof.
  intros Hy Hy1 Hx Hx1.
  rewrite py_slice_in_bounds; [|done|].
  2: { unfold tabulate. rewrite length_map, length_seq. lia. }
  apply list_eq. intros i.
  rewrite map_fmap, list_lookup_fmap, tabulate_rows.
  destruct (decide (i < Z.to_nat (y1 - y0))%nat) as [Hi|Hi].
  - rewrite lookup_take_lt by done. rewrite lookup_drop, tabulate_rows.
    rewrite decide_True by lia. simpl. f_equal.
    rewrite py_slice_in_bounds; [|done|].
    2: { rewrite length_map, length_seq. lia. }
    apply list_eq. intros j.
    rewrite !map_fmap, list_lookup_fmap.
    destruct (decide (j < Z.to_nat (x1 - x0))%nat) as [Hj|Hj].
    + rewrite lookup_take_lt by done.
      rewrite lookup_drop, list_lookup_fmap, !lookup_seq_lt by lia. done.
    + rewrite lookup_take_ge by lia. by rewrite lookup_seq_ge by lia.
  - by rewrite lookup_take_ge by lia.
Qed.

End Slices.

Section PostcardCutout.
Variables XY Row : Type.
Variable use_pointing_model : XY -> Row -> list (list float).

Lemma slice_frames_in_bounds n0 n1 n2 a med_x med_y :
  has_shape3 n0 n1 n2 a ->
  (4 <= med_y)%Z -> (med_y + 5 <= Z.of_nat n0)%Z ->
  (4 <= med_x)%Z -> (med_x + 5 <= Z.of_nat n1)%Z ->
  slice_frames (med_y - 4) (med_y + 5) (med_x - 4) (med_x + 5)
    (transpose_201 a) =
  map (fun t => tabulate 9 9 (fun i j =>
         item a (Z.to_nat (med_y - 4) + i) (Z.to_nat (med_x - 4) + j) t))
      (seq 0 n2).
Proof.
  intros Ha Hy0 Hy1 Hx0 Hx1. unfold slice_frames.
  rewrite (transpose_201_frames n0 n1 n2 a Ha) by lia.
  rewrite map_map. apply map_ext. intros t.
  rewrite slice_tabulate by lia.
  by replace (Z.to_nat (med_y + 5 - (med_y - 4))) with 9%nat by lia;
     replace (Z.to_nat (med_x + 5 - (med_x - 4))) with 9%nat by lia.
Qed.

(** X12: when the floors of the median centroid lie at least 4 pixels
    inside the postcard on every side, [get_tpf_from_postcard] returns and
    assigns one 9 by 9 frame per cadence to [tpf] and to [tpf_err]; the
    pixel at row [i] and column [j] of frame [t] is the postcard value at
    row [med_y - 4 + i], column [med_x - 4 + j] and cadence [t]. *)
Theorem get_tpf_in_bounds xy (s : loading Row) xs ys med_x med_y n0 n1 n2 :
  apply_pointing_model use_pointing_model xy (pointing_model s) = Ok (xs, ys) ->
  int_floor (np_nanmedian xs) = inr med_x ->
  int_floor (np_nanmedian ys) = inr med_y ->
  has_shape3 n0 n1 n2 (post_obj_flux s) ->
  has_shape3 n0 n1 n2 (post_obj_flux_err s) ->
  (4 <= med_y)%Z -> (med_y + 5 <= Z.of_nat n0)%Z ->
  (4 <= med_x)%Z -> (med_x + 5 <= Z.of_nat n1)%Z ->
  exists s' tpf tpf_err,
    get_tpf_from_postcard use_pointing_model xy s = (s', inr tt) /\
    self_tpf s' = Val tpf /\ self_tpf_err s' = Val tpf_err /\
    centroid_xs s' = Val xs /\ centroid_ys s' = Val ys /\
    length tpf = n2 /\ length tpf_err = n2 /\
    Forall (has_shape 9 9) tpf /\ Forall (has_shape 9 9) tpf_err /\
    forall t i j, (t < n2)%nat -> (i < 9)%nat -> (j < 9)%nat ->
      exists f e, tpf !! t = Some f /\ tpf_err !! t = Some e /\
        pixel f i j = item (post_obj_flux s)
                        (Z.to_nat (med_y - 4) + i) (Z.to_nat (med_x - 4) + j) t /\
        pixel e i j = item (post_obj_flux_err s)
                        (Z.to_nat (med_y - 4) + i) (Z.to_nat (med_x - 4) + j) t.
Proof.
  intros Hxy Hmx Hmy Hf He Hy0 Hy1 Hx0 Hx1.
  unfold get_tpf_from_postcard. cbn [pointing_model post_obj_flux
    post_obj_flux_err self_tpf self_tpf_err centroid_xs centroid_ys].
  rewrite Hxy, Hmx, Hmy.
  rewrite (slice_frames_in_bounds n0 n1 n2 _ med_x med_y Hf) by done.
  rewrite (slice_frames_in_bounds n0 n1 n2 _ med_x med_y He) by done.
  eexists _, _, _. split; [reflexivity|].
  cbn [self_tpf self_tpf_err centroid_xs centroid_ys].
  repeat (split; [reflexivity|]).
  rewrite !length_map, !length_seq. split; [done|]. split; [done|].
  split; [|split].
  - apply Forall_forall. intros f Hin.
    apply list_elem_of_In, in_map_iff in Hin as (t & <- & _).
    apply tabulate_shape.
  - apply Forall_forall. intros f Hin.
    apply list_elem_of_In, in_map_iff in Hin as (t & <- & _).
    apply tabulate_shape.
  - intros t i j Ht Hi Hj. eexists _, _.
    rewrite !map_fmap, !list_lookup_fmap, !lookup_seq_lt by done. simpl.
    split; [reflexivity|]. split; [reflexivity|].
    by rewrite !pixel_tabulate.
Qed.

Lemma slice_frames_wrap_x y0 y1 med_x (a : cube) :
  (0 <= med_x < 4)%Z ->
  Forall (Forall (fun row => (9 <= length row)%nat)) a ->
  Forall (fun frame => concat frame = [])
    (slice_frames y0 y1 (med_x - 4) (med_x + 5) a).
Proof.
  intros Hx Ha. unfold slice_frames. apply Forall_forall. intros f Hin.
  apply list_elem_of_In, in_map_iff in Hin as (frame & <- & Hframe).
  apply list_elem_of_In in Hframe.
  assert (Forall (fun row => (9 <= length row)%nat) frame) as Hrows
    by (by eapply Forall_forall in Ha).
  assert (Forall (fun row => (9 <= length row)%nat) (py_slice y0 y1 frame))
    as Hs.
  { unfold py_slice. by apply Forall_take, Forall_drop. }
  induction Hs as [|row rows Hrow _ IH]; [done|].
  simpl. rewrite py_slice_wrap by lia. done.
Qed.

Lemma slice_frames_wrap_y x0 x1 med_y (a : cube) :
  (0 <= med_y < 4)%Z ->
  Forall (fun frame => (9 <= length frame)%nat) a ->
  Forall (fun frame => concat frame = [])
    (slice_frames (med_y - 4) (med_y + 5) x0 x1 a).
Proof.
  intros Hy Ha. unfold slice_frames. apply Forall_forall. intros f Hin.
  apply list_elem_of_In, in_map_iff in Hin as (frame & <- & Hframe).
  apply list_elem_of_In in Hframe.
  assert (9 <= length frame)%nat by (by eapply Forall_forall in Ha).
  by rewrite py_slice_wrap by lia.
Qed.

Lemma transpose_201_sizes n0 n1 n2 a :
  has_shape3 n0 n1 n2 a -> (0 < n0)%nat -> (0 < n1)%nat ->
  Forall (fun frame => length frame = n0 /\
                       Forall (fun row => length row = n1) frame)
         (transpose_201 a).
Proof.
  intros Ha H0 H1. rewrite (transpose_201_frames n0 n1 n2 a Ha H0 H1).
  apply Forall_forall. intros f Hin.
  apply list_elem_of_In, in_map_iff in Hin as (t & <- & _).
  apply tabulate_shape.
Qed.

(** X13: a source whose median centroid is less than 4 pixels from the
    low edge of a postcard at least 9 pixels wide gets a cutout without a
    single pixel, not a clipped one: the negative start of the slice counts
    from the far end. *)
Theorem get_tpf_low_edge xy (s : loading Row) xs ys med_x med_y n0 n1 n2 :
  apply_pointing_model use_pointing_model xy (pointing_model s) = Ok (xs, ys) ->
  int_floor (np_nanmedian xs) = inr med_x ->
  int_floor (np_nanmedian ys) = inr med_y ->
  has_shape3 n0 n1 n2 (post_obj_flux s) ->
  (9 <= n0)%nat -> (9 <= n1)%nat ->
  (0 <= med_x < 4)%Z \/ (0 <= med_y < 4)%Z ->
  exists s' tpf,
    get_tpf_from_postcard use_pointing_model xy s = (s', inr tt) /\
    self_tpf s' = Val tpf /\ length tpf = n2 /\
    Forall (fun frame => concat frame = []) tpf.
Proof.
  intros Hxy Hmx Hmy Hf H0 H1 Hedge.
  unfold get_tpf_from_postcard. cbn [pointing_model post_obj_flux
    post_obj_flux_err self_tpf self_tpf_err centroid_xs centroid_ys].
  rewrite Hxy, Hmx, Hmy. eexists _, _. split; [reflexivity|].
  cbn [self_tpf]. split; [reflexivity|].
  pose proof (transpose_201_sizes n0 n1 n2 _ Hf ltac:(lia) ltac:(lia)) as Hs.
  split.
  - unfold slice_frames. rewrite length_map.
    rewrite (transpose_201_frames n0 n1 n2 _ Hf) by lia.
    by rewrite length_map, length_seq.
  - destruct Hedge as [Hx|Hy].
    + apply slice_frames_wrap_x; [done|].
      eapply Forall_impl; [exact Hs|]. intros frame [_ Hrows].
      eapply Forall_impl; [exact Hrows|]. intros row ->. done.
    + apply slice_frames_wrap_y; [done|].
      eapply Forall_impl; [exact Hs|]. by intros frame [-> _].
Qed.

Lemma np_nanmedian_all_nan l :
  Forall (fun v => is_nan v = true) l -> np_nanmedian l = nan.
Proof.
  intros H. unfold np_nanmedian.
  assert (filter (fun v => negb (is_nan v)) l = []) as ->; [|done].
  induction H as [|v l Hv _ IH]; [done|].
  rewrite filter_cons, Hv. simpl. done.
Qed.

(** X14: when the pointing model has no row, or every centroid it gives is
    [nan], [get_tpf_from_postcard] raises [ValueError] (the median is [nan]
    and has no integer value); the centroid lists are assigned and [tpf] is
    left at [None]. *)
Theorem get_tpf_nan_centroids xy (s : loading Row) xs ys :
  apply_pointing_model use_pointing_model xy (pointing_model s) = Ok (xs, ys) ->
  Forall (fun v => is_nan v = true) xs ->
  exists s',
    get_tpf_from_postcard use_pointing_model xy s = (s', inl (Builtin ValueError)) /\
    self_tpf s' = PyNone /\ centroid_xs s' = Val xs /\ centroid_ys s' = Val ys.
Proof.
  intros Hxy Hnan. unfold get_tpf_from_postcard. cbn [pointing_model post_obj_flux
    post_obj_flux_err self_tpf self_tpf_err centroid_xs centroid_ys].
  rewrite Hxy, (np_nanmedian_all_nan xs Hnan).
  eexists. split; [reflexivity|]. done.
Qed.

End PostcardCutout.

Section Constructor.
Variable to_image : aperture_shape -> string -> nat * nat -> image.

Lemma create_apertures_run s f rest :
  tpf s = f :: rest ->
  create_apertures to_image s =
  (set_all_apertures (Val (aperture_catalog to_image (np_shape f)))
     (set_all_aperture PyNone (set_all_lc PyNone s)), Ok tt).
Proof.
  intros Htpf. unfold create_apertures. rewrite r_list_values.
  cbv [forM bindM assignM evalM retM append_aperture first_shape index].
  obj_simpl.
  repeat (rewrite Htpf; cbn [lookup list_lookup bindR]; obj_simpl).
  reflexivity.
Qed.

Lemma create_apertures_empty s :
  tpf s = [] ->
  create_apertures to_image s =
  (set_all_apertures (Val [])
     (set_all_aperture PyNone (set_all_lc PyNone s)), Raise IndexError).
Proof.
  intros H. unfold create_apertures. rewrite r_list_values.
  cbv [forM bindM assignM evalM retM append_aperture first_shape index].
  obj_simpl. by rewrite H.
Qed.

(** X15: [create_apertures] rebuilds the catalog, it does not extend it:
    a second call leaves the object exactly as the first did, with the same
    outcome. *)
Theorem create_apertures_idempotent s :
  create_apertures to_image (create_apertures to_image s).1 =
  create_apertures to_image s.
Proof.
  destruct (tpf s) as [|f rest] eqn:Htpf.
  - rewrite (create_apertures_empty s Htpf). cbn [fst].
    by rewrite create_apertures_empty.
  - rewrite (create_apertures_run s f rest Htpf). cbn [fst].
    by rewrite (create_apertures_run _ f rest).
Qed.




(** Two objects with the same attributes are the same. *)
Lemma target_eq s s' :
  tpf s = tpf s' -> tpf_err s = tpf_err s' ->
  centroid_x s = centroid_x s' -> centroid_y s = centroid_y s' ->
  all_lc s = all_lc s' -> all_lc_err s = all_lc_err s' ->
  all_aperture s = all_aperture s' -> all_apertures s = all_apertures s' ->
  lc s = lc s' -> lc_err s = lc_err s' ->
  flux s = flux s' -> flux_err s = flux_err s' ->
  aperture s = aperture s' ->
  custom_aperture_attr s = custom_aperture_attr s' ->
  stdout s = stdout s' -> s = s'.
Proof. destruct s, s'. simpl. intros. by subst. Qed.

(** The second of two [get_lightcurve] calls sees the catalog and the cube
    that the first one saw. *)
Ltac second_call s1 aps rows Haps Hrows :=
  let H1 := fresh in
  let H2 := fresh in
  assert (H1 : all_apertures s1 = Val aps) by exact Haps;
  assert (H2 : mapR (photometry (tpf s1) (tpf_err s1)) aps = Ok rows)
    by exact Hrows;
  rewrite (get_lightcurve_scores s1 aps rows H1 H2);
  clear H1 H2.

Ltac same_target r :=
  apply (f_equal (fun x : TargetData => (x, r)));
  apply target_eq;
  cbv [tpf tpf_err centroid_x centroid_y all_lc all_lc_err all_aperture
       all_apertures lc lc_err flux flux_err aperture custom_aperture_attr
       stdout set_all_lc set_all_lc_err set_all_aperture set_all_apertures
       set_lc set_lc_err set_flux set_flux_err set_aperture
       set_custom_aperture_attr set_stdout after_photometry cleared];
  reflexivity.

Lemma get_lightcurve_no_catalog s e :
  read (all_apertures s) = Raise e ->
  get_lightcurve false s = (cleared s, Raise e).
Proof.
  intros Haps. unfold get_lightcurve. simpl negb. cbv iota.
  run_method. by rewrite Haps.
Qed.

Lemma get_lightcurve_photometry_raises s aps e :
  all_apertures s = Val aps ->
  mapR (photometry (tpf s) (tpf_err s)) aps = Raise e ->
  get_lightcurve false s = (cleared s, Raise e).
Proof.
  intros Haps Hrows. unfold get_lightcurve. simpl negb. cbv iota.
  run_method. rewrite Haps. obj_simpl. by rewrite Hrows.
Qed.

(** X17: [get_lightcurve] on the catalog branch is idempotent: a second
    call leaves the object exactly as the first did, with the same
    outcome. *)
Theorem get_lightcurve_idempotent s :
  get_lightcurve false (get_lightcurve false s).1 = get_lightcurve false s.
Proof.
  destruct (read (all_apertures s)) as [aps'|e] eqn:Hread.
  2: { rewrite (get_lightcurve_no_catalog s e Hread). cbn [fst].
       assert (H1 : read (all_apertures (cleared s)) = Raise e) by exact Hread.
       rewrite (get_lightcurve_no_catalog (cleared s) e H1).
       same_target (Raise (A:=unit) e). }
  destruct (all_apertures s) as [| |aps] eqn:Haps; [done|done|clear Hread aps'].
  destruct (mapR (photometry (tpf s) (tpf_err s)) aps) as [rows|e] eqn:Hrows.
  2: { rewrite (get_lightcurve_photometry_raises s aps e Haps Hrows).
       cbn [fst].
       assert (H1 : all_apertures (cleared s) = Val aps) by exact Haps.
       assert (H2 : mapR (photometry (tpf (cleared s)) (tpf_err (cleared s)))
                      aps = Raise e) by exact Hrows.
       rewrite (get_lightcurve_photometry_raises (cleared s) aps e H1 H2).
       same_target (Raise (A:=unit) e). }
  rewrite (get_lightcurve_scores s aps rows Haps Hrows).
  destruct (best_ind (map score rows)) as [b|e] eqn:Hb.
  2: { cbn [fst]. second_call (after_photometry rows s) aps rows Haps Hrows.
       rewrite Hb. same_target (Raise (A:=unit) e). }
  destruct (index rows.*1 b) as [l|e] eqn:Hl.
  2: { cbn [fst]. second_call (after_photometry rows s) aps rows Haps Hrows.
       rewrite Hb, Hl. same_target (Raise (A:=unit) e). }
  destruct (index aps b) as [ap|e] eqn:Hap.
  2: { cbn [fst].
       second_call (set_lc (Val l) (after_photometry rows s)) aps rows
         Haps Hrows.
       rewrite Hb, Hl, Hap. same_target (Raise (A:=unit) e). }
  destruct (index rows.*2 b) as [le|e] eqn:Hle.
  2: { cbn [fst].
       second_call
         (set_aperture (Val ap) (set_lc (Val l) (after_photometry rows s)))
         aps rows Haps Hrows.
       rewrite Hb, Hl, Hap, Hle. same_target (Raise (A:=unit) e). }
  cbn [fst].
  second_call
    (set_lc_err (Val le)
       (set_aperture (Val ap) (set_lc (Val l) (after_photometry rows s))))
    aps rows Haps Hrows.
  rewrite Hb, Hl, Hap, Hle. same_target (Ok tt).
Qed.

End Constructor.

Section HighEdge.
Variables XY Row : Type.
Variable use_pointing_model : XY -> Row -> list (list float).

Lemma py_slice_clip {A} lo hi (l : list A) :
  (0 <= lo)%Z -> (Z.of_nat (length l) <= hi)%Z ->
  py_slice lo hi l = py_slice lo (Z.of_nat (length l)) l.
Proof.
  intros Hlo Hhi. unfold py_slice.
  destruct (Z.ltb_spec lo 0); [lia|].
  destruct (Z.ltb_spec hi 0); [lia|].
  destruct (Z.ltb_spec (Z.of_nat (length l)) 0); [lia|].
  rewrite (Z.min_r hi) by lia. by rewrite Z.min_id.
Qed.

Lemma slice_frames_high_x n0 n1 n2 a med_x med_y :
  has_shape3 n0 n1 n2 a ->
  (4 <= med_y)%Z -> (med_y + 5 <= Z.of_nat n0)%Z ->
  (4 <= med_x)%Z -> (med_x - 4 < Z.of_nat n1)%Z ->
  (Z.of_nat n1 < med_x + 5)%Z ->
  slice_frames (med_y - 4) (med_y + 5) (med_x - 4) (med_x + 5)
    (transpose_201 a) =
  map (fun t => tabulate 9 (n1 - Z.to_nat (med_x - 4)) (fun i j =>
         item a (Z.to_nat (med_y - 4) + i) (Z.to_nat (med_x - 4) + j) t))
      (seq 0 n2).
Proof.
  intros Ha Hy0 Hy1 Hx0 Hx1 Hx2. unfold slice_frames.
  rewrite (transpose_201_frames n0 n1 n2 a Ha) by lia.
  rewrite map_map. apply map_ext. intros t.
  assert (map (py_slice (med_x - 4) (med_x + 5))
            (py_slice (med_y - 4) (med_y + 5)
               (tabulate n0 n1 (fun i j => item a i j t))) =
          map (py_slice (med_x - 4) (Z.of_nat n1))
            (py_slice (med_y - 4) (med_y + 5)
               (tabulate n0 n1 (fun i j => item a i j t)))) as ->.
  { apply map_ext_in. intros row Hrow.
    assert (length row = n1) as Hl.
    { pose proof (tabulate_shape n0 n1 (fun i j => item a i j t)) as [_ Hs].
      assert (Forall (fun r : list float => length r = n1)
                (py_slice (med_y - 4) (med_y + 5)
                   (tabulate n0 n1 (fun i j => item a i j t)))) as Hs'.
      { unfold py_slice. by apply Forall_take, Forall_drop. }
      apply list_elem_of_In in Hrow. by eapply Forall_forall in Hs'. }
    rewrite py_slice_clip by lia. by rewrite Hl. }
  rewrite slice_tabulate by lia.
  by replace (Z.to_nat (med_y + 5 - (med_y - 4))) with 9%nat by lia;
     replace (Z.to_nat (Z.of_nat n1 - (med_x - 4)))
       with (n1 - Z.to_nat (med_x - 4))%nat by lia.
Qed.

(** X18: at the high edge the cutout is clipped: when the median column
    is fewer than 5 pixels from the last column of the postcard (the rows
    being inside), every frame of [tpf] has 9 rows and only the
    [n1 - (med_x - 4)] columns that exist, at least one and fewer than 9,
    starting at column [med_x - 4]. *)
Theorem get_tpf_high_edge xy (s : loading Row) xs ys med_x med_y n0 n1 n2 :
  apply_pointing_model use_pointing_model xy (pointing_model s) = Ok (xs, ys) ->
  int_floor (np_nanmedian xs) = inr med_x ->
  int_floor (np_nanmedian ys) = inr med_y ->
  has_shape3 n0 n1 n2 (post_obj_flux s) ->
  (4 <= med_y)%Z -> (med_y + 5 <= Z.of_nat n0)%Z ->
  (4 <= med_x)%Z -> (med_x - 4 < Z.of_nat n1)%Z ->
  (Z.of_nat n1 < med_x + 5)%Z ->
  exists s' tpf,
    get_tpf_from_postcard use_pointing_model xy s = (s', inr tt) /\
    self_tpf s' = Val tpf /\ length tpf = n2 /\
    (n1 - Z.to_nat (med_x - 4) < 9)%nat /\
    Forall (has_shape 9 (n1 - Z.to_nat (med_x - 4))) tpf /\
    forall t i j, (t < n2)%nat -> (i < 9)%nat ->
      (j < n1 - Z.to_nat (med_x - 4))%nat ->
      exists f, tpf !! t = Some f /\
        pixel f i j = item (post_obj_flux s)
                        (Z.to_nat (med_y - 4) + i) (Z.to_nat (med_x - 4) + j) t.
Proof.
  intros Hxy Hmx Hmy Hf Hy0 Hy1 Hx0 Hx1 Hx2.
  unfold get_tpf_from_postcard. cbn [pointing_model post_obj_flux
    post_obj_flux_err self_tpf self_tpf_err centroid_xs centroid_ys].
  rewrite Hxy, Hmx, Hmy.
  rewrite (slice_frames_high_x n0 n1 n2 _ med_x med_y Hf) by done.
  eexists _, _. split; [reflexivity|]. cbn [self_tpf].
  split; [reflexivity|]. rewrite length_map, length_seq.
  split; [done|]. split; [lia|]. split.
  - apply Forall_forall. intros f Hin.
    apply list_elem_of_In, in_map_iff in Hin as (t & <- & _).
    apply tabulate_shape.
  - intros t i j Ht Hi Hj. eexists.
    rewrite map_fmap, list_lookup_fmap, lookup_seq_lt by done. simpl.
    split; [reflexivity|]. by rewrite pixel_tabulate.
Qed.

End HighEdge.

Lemma cube_of_shape n0 n1 n2 f : has_shape3 n0 n1 n2 (cube_of n0 n1 n2 f).
Proof.
  split; unfold cube_of.
  - by rewrite length_map, length_seq.
  - apply Forall_forall. intros r Hr.
    apply list_elem_of_In, in_map_iff in Hr as (i & <- & _).
    split; [by rewrite length_map, length_seq|].
    apply Forall_forall. intros c Hc.
    apply list_elem_of_In, in_map_iff in Hc as (j & <- & _).
    by rewrite length_map, length_seq.
Qed.


(** X2, witness: a new object after the constructor's two steps and a call
    of [custom_aperture]. *)
Lemma jitter_corr_needs_centroid_witness :
  let s' := run_calls center_raster clip_minimize mean_normalise
              [Call_create_apertures; Call_get_lightcurve false;
               Call_custom_aperture (Some "circle") 2 0 0 0 (4, 4) "exact"]
              (new_target [star_frame 100; star_frame 101]
                          [star_frame 1; star_frame 1]) in
  jitter_corr clip_minimize s' = (s', Raise AttributeError) /\
  system_corr clip_minimize mean_normalise true true s' =
    (s', Raise AttributeError).
Proof.
  apply (jitter_corr_needs_centroid center_raster clip_minimize mean_normalise).
  reflexivity.
Defined.

(** X5, witness: an object whose catalog was emptied. *)
Lemma get_lightcurve_empty_catalog_witness :
  exists s',
    get_lightcurve false
      (set_all_apertures (Val []) (new_target [[[1]]] [[[1]]])) =
      (s', Raise ValueError) /\
    all_lc s' = Val [] /\ all_lc_err s' = Val [] /\
    lc s' = Unset /\ lc_err s' = Unset /\ aperture s' = PyNone.
Proof.
  apply (get_lightcurve_empty_catalog
           (set_all_apertures (Val []) (new_target [[[1]]] [[[1]]]))).
  reflexivity.
Defined.

(** X6, witness: an object without a cadence. *)
Lemma create_apertures_no_cadence_witness :
  exists s1 s2,
    create_apertures center_raster (new_target [] []) = (s1, Raise IndexError) /\
    all_apertures s1 = Val [] /\
    get_lightcurve false s1 = (s2, Raise ValueError).
Proof.
  apply (create_apertures_no_cadence center_raster (new_target [] [])).
  reflexivity.
Defined.

(** X7, witness: a new object, whose [centroid_x] is not assigned. *)
Lemma jitter_corr_raise_unchanged_witness :
  new_target [[[1]]] [[[1]]] = new_target [[[1]]] [[[1]]] /\
  system_corr clip_minimize mean_normalise true true
    (new_target [[[1]]] [[[1]]]) =
  (new_target [[[1]]] [[[1]]], Raise AttributeError).
Proof.
  apply (jitter_corr_raise_unchanged clip_minimize mean_normalise
           (new_target [[[1]]] [[[1]]]) (new_target [[[1]]] [[[1]]])
           AttributeError true).
  reflexivity.
Defined.

(** X8, witness: three cadences and centroid arrays of two values. *)
Lemma jitter_corr_length_mismatch_witness :
  jitter_corr clip_minimize (corr_target [1; 2; 3] [4; 5] [4; 5]) =
  (corr_target [1; 2; 3] [4; 5] [4; 5], Raise ValueError).
Proof.
  apply (jitter_corr_length_mismatch clip_minimize
           (corr_target [1; 2; 3] [4; 5] [4; 5]) [4; 5] [4; 5] [1; 2; 3]);
    try reflexivity; simpl; lia.
Defined.

(** X9, witness: the dip of [dip_lc], excluded by the first pass, is still
    excluded after the last. *)
Lemma jitter_mask_monotone_witness :
  exists rs r r',
    jitter_rounds clip_minimize still_xy still_xy dip_lc = Ok rs /\
    rs !! 0%nat = Some r /\ rs !! 4%nat = Some r' /\
    r_mask r !! 10%nat = Some false /\ r_mask r' !! 10%nat = Some false.
Proof.
  eexists _, _, _.
  split; [vm_compute; reflexivity|]. split; [reflexivity|].
  split; [reflexivity|]. split; [reflexivity|].
  eapply (jitter_mask_monotone clip_minimize still_xy still_xy dip_lc _
            0 4 _ _ 10).
  - reflexivity.
  - reflexivity.
  - vm_compute. reflexivity.
  - reflexivity.
  - reflexivity.
  - lia.
  - reflexivity.
Defined.

(** X10, witness: a [nan] under the weight 0 of the only aperture. *)
Lemma get_lightcurve_nan_pixel_witness :
  exists s',
    get_lightcurve false
      (set_all_apertures (Val [[[1; 0]]])
         (new_target [[[1; 2]]; [[3; nan]]] [[[1; 1]]; [[1; 1]]])) =
      (s', Raise IndexError) /\
    lc s' = Unset /\ aperture s' = PyNone.
Proof.
  apply (get_lightcurve_nan_pixel
           (set_all_apertures (Val [[[1; 0]]])
              (new_target [[[1; 2]]; [[3; nan]]] [[[1; 1]]; [[1; 1]]]))
           [[[1; 0]]] 1 2 1 [[3; nan]] 0 1).
  - reflexivity.
  - discriminate.
  - repeat constructor.
  - repeat constructor.
  - repeat constructor.
  - reflexivity.
  - reflexivity.
  - lia.
  - lia.
  - reflexivity.
Defined.

(** X11, witness: two cadences of two pixels under a mask of zeros. *)
Lemma photometry_zero_flux_witness :
  length [0; 0] = length [[[1; 2]]; [[3; -4]]] /\
  Forall (fun v => (v =? 0) = true) [0; 0].
Proof.
  apply (photometry_zero_flux 1 2 [[[1; 2]]; [[3; -4]]] [[[1; 1]]; [[1; 1]]]
           [[0; 0]] [0; 0] [0; 0]).
  - repeat constructor.
  - repeat constructor.
  - repeat constructor.
  - reflexivity.
  - intros f i j Hf Hi Hj. right.
    assert (i = O) as -> by lia.
    assert (j = O \/ j = 1%nat) as [-> | ->] by lia;
      repeat (apply elem_of_cons in Hf as [->|Hf]);
      try (by apply elem_of_nil in Hf);
      (split; [vm_compute; exact I | exists false; vm_compute; reflexivity]).
  - vm_compute. reflexivity.
Defined.

(** X12, witness: the centroids 6.25, 6.75, 6.5 and 5.75, 5.25, 6 on the
    13 by 13 postcard: the medians floor to column 6 and row 5. *)
Lemma get_tpf_in_bounds_witness :
  exists s' tpf tpf_err,
    get_tpf_from_postcard shift_pointing (6.25, 5.75)
      (ramp_loading three_offsets) = (s', inr tt) /\
    self_tpf s' = Val tpf /\ self_tpf_err s' = Val tpf_err /\
    centroid_xs s' = Val [6.25; 6.75; 6.5] /\
    centroid_ys s' = Val [5.75; 5.25; 6] /\
    length tpf = 2%nat /\ length tpf_err = 2%nat /\
    Forall (has_shape 9 9) tpf /\ Forall (has_shape 9 9) tpf_err /\
    forall t i j, (t < 2)%nat -> (i < 9)%nat -> (j < 9)%nat ->
      exists f e, tpf !! t = Some f /\ tpf_err !! t = Some e /\
        pixel f i j = item (post_obj_flux (ramp_loading three_offsets))
                        (Z.to_nat (5 - 4) + i) (Z.to_nat (6 - 4) + j) t /\
        pixel e i j = item (post_obj_flux_err (ramp_loading three_offsets))
                        (Z.to_nat (5 - 4) + i) (Z.to_nat (6 - 4) + j) t.
Proof.
  apply (get_tpf_in_bounds (float * float) (float * float) shift_pointing
           (6.25, 5.75) (ramp_loading three_offsets)
           [6.25; 6.75; 6.5] [5.75; 5.25; 6] 6 5 13 13 2).
  - vm_compute. reflexivity.
  - vm_compute. reflexivity.
  - vm_compute. reflexivity.
  - apply cube_of_shape.
  - apply cube_of_shape.
  - lia.
  - lia.
  - lia.
  - lia.
Defined.

(** The middle of the cutout of the witness of X12 is the postcard pixel at
    row 5 and column 6. *)
Example get_tpf_centre_pixel :
  match (get_tpf_from_postcard shift_pointing (6.25, 5.75)
           (ramp_loading three_offsets)).1.(self_tpf) with
  | Val tpf => (fun f => pixel f 4 4) <$> tpf
  | _ => []
  end = [506; 506.5].
Proof. vm_compute. reflexivity. Qed.

(** X13, witness: the median column floors to 2. *)
Lemma get_tpf_low_edge_witness :
  exists s' tpf,
    get_tpf_from_postcard shift_pointing (2.25, 5.75)
      (ramp_loading three_offsets) = (s', inr tt) /\
    self_tpf s' = Val tpf /\ length tpf = 2%nat /\
    Forall (fun frame => concat frame = []) tpf.
Proof.
  apply (get_tpf_low_edge (float * float) (float * float) shift_pointing
           (2.25, 5.75) (ramp_loading three_offsets)
           [2.25; 2.75; 2.5] [5.75; 5.25; 6] 2 5 13 13 2).
  - vm_compute. reflexivity.
  - vm_compute. reflexivity.
  - vm_compute. reflexivity.
  - apply cube_of_shape.
  - lia.
  - lia.
  - left. lia.
Defined.

(** X14, witness: a pointing model without a row. *)
Lemma get_tpf_nan_centroids_witness :
  exists s',
    get_tpf_from_postcard shift_pointing (6.25, 5.75) (ramp_loading []) =
      (s', inl (Builtin ValueError)) /\
    self_tpf s' = PyNone /\ centroid_xs s' = Val [] /\ centroid_ys s' = Val [].
Proof.
  apply (get_tpf_nan_centroids (float * float) (float * float) shift_pointing
           (6.25, 5.75) (ramp_loading []) [] []).
  - reflexivity.
  - constructor.
Defined.

(** X18, witness: the median column floors to 10, so the columns 6 to 12
    are left. *)
Lemma get_tpf_high_edge_witness :
  exists s' tpf,
    get_tpf_from_postcard shift_pointing (10.25, 5.75)
      (ramp_loading three_offsets) = (s', inr tt) /\
    self_tpf s' = Val tpf /\ length tpf = 2%nat /\
    (13 - Z.to_nat (10 - 4) < 9)%nat /\
    Forall (has_shape 9 (13 - Z.to_nat (10 - 4))) tpf /\
    forall t i j, (t < 2)%nat -> (i < 9)%nat ->
      (j < 13 - Z.to_nat (10 - 4))%nat ->
      exists f, tpf !! t = Some f /\
        pixel f i j = item (post_obj_flux (ramp_loading three_offsets))
                        (Z.to_nat (5 - 4) + i) (Z.to_nat (10 - 4) + j) t.
Proof.
  apply (get_tpf_high_edge (float * float) (float * float) shift_pointing
           (10.25, 5.75) (ramp_loading three_offsets)
           [10.25; 10.75; 10.5] [5.75; 5.25; 6] 10 5 13 13 2).
  - vm_compute. reflexivity.
  - vm_compute. reflexivity.
  - vm_compute. reflexivity.
  - apply cube_of_shape.
  - lia.
  - lia.
  - lia.
  - lia.
  - lia.
Defined.

